(** * FFmpeg_script: synchronous multi-camera recording

    A shallow embedding of [FFmpeg_script.py].  The script probes (or is
    given) a start offset per camera, builds a queue sorted by offset,
    releases one recording thread per queue entry at its delay, and then
    loops forever restarting dead threads.

    Modelling choices.
    - Python floats (offsets, delays, [time()]) are rationals [Q]; the
      subtraction of the minimal offset is the exact difference in lowest
      terms.  [nan] and the infinities have no counterpart here.
    - Strings are byte strings; [\d] is an ASCII digit.
    - The outside world (ffprobe, the wall clock, thread liveness) is a
      record of oracles [Env]; what the script did to it is logged in a
      [world] that every function threads through.
    - A recording thread is a handle carrying the job it was started
      with; whether it is still running is asked of the oracle.
    - Global names are looked up in the module's name space when a call
      is evaluated, as Python does.
    - The two loops that wait on the outside world are bounded: the busy
      wait of [start_queue] by [fuel] clock readings, the [while True] of
      [main] by the number of passes made before the keyboard interrupt.
    - Exceptions are values of [exn]; a computation returns a [result]
      together with the world as it was left. *)

From Stdlib Require Import List String Ascii Bool Arith PeanoNat Lia.
From Stdlib Require Import QArith Qreduction Permutation Sorted.
Import ListNotations.
Open Scope string_scope.
Open Scope nat_scope.
Open Scope list_scope.

(** ** Exceptions and results *)

Inductive exn : Type :=
| NameError (name : string)
| ValueError (msg : string)
| KeyError (key : string)
| TypeError
| AttributeError
| StopIteration
| IndexError
| FFmpegError
| SystemExit (code : nat).

Inductive result (A : Type) : Type :=
| Ok (a : A)
| Raise (e : exn)
| OutOfFuel.

Arguments Ok {A} a.
Arguments Raise {A} e.
Arguments OutOfFuel {A}.

(** ** Values returned by [ffmpeg.probe] (decoded JSON) *)

#[local] Set Warnings "-register-all".

Inductive json : Type :=
| JNull
| JBool (b : bool)
| JNum (q : Q)
| JStr (s : string)
| JList (items : list json)
| JDict (fields : list (string * json)).

(** ** The recording job a thread runs (the arguments of [ffmpeg.output]) *)

Record recording : Type := mkRecording {
  rec_inputs : list string;
  rec_output : string;
  rec_vcodec : string;
  rec_acodec : string
}.

Record Thread : Type := mkThread {
  tid : nat;
  t_input : string;
  t_audio : option string;
  t_output : string;
  t_target : recording;
  t_started_at : nat    (* clock readings taken before the start *)
}.

Record datetime : Type := mkDatetime {
  year : nat;
  month : nat;
  day : nat;
  hour : nat;
  minute : nat;
  second : nat;
  microsecond : nat
}.

(** ** The outside world *)

Record Env : Type := mkEnv {
  ffprobe : string -> option json;     (* ffmpeg.probe(name); None: it raised *)
  parse_float : string -> option Q;    (* float(str) *)
  clock : nat -> Q;                    (* k-th reading of time() *)
  now : nat -> datetime;               (* datetime.now() at reading k *)
  alive : nat -> nat -> bool           (* k-th liveness query, thread id *)
}.

Record world : Type := mkWorld {
  probes : list string;     (* names passed to ffmpeg.probe, latest first *)
  reads : nat;              (* clock readings taken so far *)
  started : list Thread;    (* threads started, latest first *)
  polls : nat               (* liveness queries made so far *)
}.

Definition M (A : Type) : Type := world -> result A * world.

Definition ret {A} (a : A) : M A := fun w => (Ok a, w).

Definition raise {A} (e : exn) : M A := fun w => (Raise e, w).

Definition spin {A} : M A := fun w => (OutOfFuel, w).

Definition bind {A B} (m : M A) (k : A -> M B) : M B :=
  fun w =>
    match m w with
    | (Ok a, w') => k a w'
    | (Raise e, w') => (Raise e, w')
    | (OutOfFuel, w') => (OutOfFuel, w')
    end.

Notation "x <- m ;; k" := (bind m (fun x => k))
  (at level 61, m at next level, right associativity).
Notation "m ;;; k" := (bind m (fun _ => k))
  (at level 61, right associativity).

(** ** Python primitives on JSON values *)

Definition truthy (v : json) : bool :=
  match v with
  | JNull => false
  | JBool b => b
  | JNum q => negb (Qeq_bool q 0)
  | JStr s => negb (String.eqb s "")
  | JList items => match items with [] => false | _ => true end
  | JDict fields => match fields with [] => false | _ => true end
  end.

Fixpoint dict_get (key : string) (fields : list (string * json)) : option json :=
  match fields with
  | [] => None
  | (k, v) :: rest => if String.eqb k key then Some v else dict_get key rest
  end.

(* v[key] for a string key *)
Definition subscript (v : json) (key : string) : exn + json :=
  match v with
  | JDict fields =>
      match dict_get key fields with
      | Some x => inr x
      | None => inl (KeyError key)
      end
  | _ => inl TypeError
  end.

Fixpoint chars (s : string) : list json :=
  match s with
  | EmptyString => []
  | String c s' => JStr (String c EmptyString) :: chars s'
  end.

(* iter(v) *)
Definition py_iter (v : json) : exn + list json :=
  match v with
  | JList items => inr items
  | JDict fields => inr (map (fun kv => JStr (fst kv)) fields)
  | JStr s => inr (chars s)
  | _ => inl TypeError
  end.

(* stream["codec_type"] == "video" *)
Definition is_video (stream : json) : exn + bool :=
  match stream with
  | JDict fields =>
      match dict_get "codec_type" fields with
      | Some (JStr s) => inr (String.eqb s "video")
      | Some _ => inr false
      | None => inl (KeyError "codec_type")
      end
  | _ => inl TypeError
  end.

(* next(stream for stream in items if stream["codec_type"] == "video") *)
Fixpoint next_video (items : list json) : exn + json :=
  match items with
  | [] => inl StopIteration
  | stream :: rest =>
      match is_video stream with
      | inl e => inl e
      | inr true => inr stream
      | inr false => next_video rest
      end
  end.

Definition no_video_msg : string := "No video stream found".

Definition py_float (env : Env) (v : json) : exn + Q :=
  match v with
  | JNum q => inr q
  | JBool b => inr (if b then 1%Q else 0%Q)
  | JStr s =>
      match parse_float env s with
      | Some q => inr q
      | None => inl (ValueError ("could not convert string to float: " ++ s)%string)
      end
  | _ => inl TypeError
  end.

Definition lift {A} (r : exn + A) : M A :=
  match r with
  | inl e => raise e
  | inr a => ret a
  end.

Definition ffmpeg_probe (env : Env) (stream_name : string) : M json :=
  fun w =>
    let w' := mkWorld (stream_name :: probes w) (reads w) (started w) (polls w) in
    match ffprobe env stream_name with
    | None => (Raise FFmpegError, w')
    | Some v => (Ok v, w')
    end.

Definition get_stream_delay (env : Env) (stream_name : string) : M Q :=
  probe <- ffmpeg_probe env stream_name ;;
  streams <- lift (subscript probe "streams") ;;
  items <- lift (py_iter streams) ;;
  video_stream <- lift (next_video items) ;;
  if negb (truthy video_stream) then raise (ValueError no_video_msg)
  else
    start_time <- lift (subscript video_stream "start_time") ;;
    lift (py_float env start_time).

(** ** [create_queue] *)

Definition Qlt_bool (x y : Q) : bool := negb (Qle_bool y x).

(* Float subtraction: the exact difference, in lowest terms. *)
Definition fsub (x y : Q) : Q := Qred (x - y).

Definition entry : Type := (string * Q)%type.

(* [list.sort(key=lambda x: x[1])] (line 93) compares keys with [<] only
   and is stable.  CPython sorts short lists by insertion, placing each
   element to the right of the elements it is not smaller than; on longer
   lists it merges runs, with the same result, since the stable sort of a
   list under a total preorder is unique. *)
Fixpoint sort_insert (x : entry) (sorted : list entry) : list entry :=
  match sorted with
  | [] => [x]
  | y :: rest =>
      if Qlt_bool (snd x) (snd y) then x :: y :: rest
      else y :: sort_insert x rest
  end.

Definition list_sort (queue : list entry) : list entry :=
  fold_left (fun sorted x => sort_insert x sorted) queue [].

(* [min(queue, key=lambda x: x[1])]: the first element of minimal key. *)
Fixpoint min_from (best : entry) (queue : list entry) : entry :=
  match queue with
  | [] => best
  | x :: rest =>
      min_from (if Qlt_bool (snd x) (snd best) then x else best) rest
  end.

Definition py_min (queue : list entry) : exn + entry :=
  match queue with
  | [] => inl (ValueError "min() arg is an empty sequence")
  | x :: rest => inr (min_from x rest)
  end.

(* [if delays:] -- [None] and the empty list are both false. *)
Definition delays_given (delays : option (list Q)) : bool :=
  match delays with
  | Some (_ :: _) => true
  | _ => false
  end.

Definition delays_list (delays : option (list Q)) : list Q :=
  match delays with
  | Some ds => ds
  | None => []
  end.

Fixpoint probe_all (env : Env) (input_stream_names : list string)
    (queue : list entry) : M (list entry) :=
  match input_stream_names with
  | [] => ret queue
  | input_stream_name :: rest =>
      delay <- get_stream_delay env input_stream_name ;;
      probe_all env rest (queue ++ [(input_stream_name, delay)])
  end.

(* Lines 93-100: sort, subtract the minimal delay, return. *)
Definition normalize (queue : list entry) : M (list entry) :=
  let queue := list_sort queue in
  m <- lift (py_min queue) ;;
  let min_delay := snd m in
  ret (map (fun e => (fst e, fsub (snd e) min_delay)) queue).

Definition create_queue (env : Env) (input_stream_names : list string)
    (delays : option (list Q)) : M (list entry) :=
  queue <- (if delays_given delays
            then ret (combine input_stream_names (delays_list delays))
            else probe_all env input_stream_names []) ;;
  normalize queue.

(** ** [make_filename] *)

Definition is_digit (c : ascii) : bool :=
  (48 <=? nat_of_ascii c) && (nat_of_ascii c <=? 57).

Definition is_dot (c : ascii) : bool := Ascii.eqb c "."%char.

(* One regex item: a character class repeated between [lo] and [hi]
   times, greedily. *)
Record piece : Type := Rep { cls : ascii -> bool; lo : nat; hi : nat }.

(* \d{1,3}\.\d{1,3}\.\d{1,3}\.\d{1,3} *)
Definition ip_pattern : list piece :=
  [Rep is_digit 1 3; Rep is_dot 1 1; Rep is_digit 1 3; Rep is_dot 1 1;
   Rep is_digit 1 3; Rep is_dot 1 1; Rep is_digit 1 3].

Fixpoint span (p : ascii -> bool) (s : string) : nat :=
  match s with
  | String c s' => if p c then S (span p s') else 0
  | EmptyString => 0
  end.

Fixpoint string_take (n : nat) (s : string) : string :=
  match n, s with
  | S n', String c s' => String c (string_take n' s')
  | _, _ => EmptyString
  end.

Fixpoint string_drop (n : nat) (s : string) : string :=
  match n, s with
  | S n', String _ s' => string_drop n' s'
  | _, _ => s
  end.

(* Try [f n], then [f (n-1)], ... down to [f 0]. *)
Fixpoint first_down {A} (n : nat) (f : nat -> option A) : option A :=
  match f n with
  | Some r => Some r
  | None =>
      match n with
      | 0 => None
      | S n' => first_down n' f
      end
  end.

(* Backtracking match of the pattern at the start of [s]; returns the
   matched text. *)
Fixpoint match_here (pat : list piece) (s : string) : option string :=
  match pat with
  | [] => Some EmptyString
  | p :: pat' =>
      let avail := Nat.min (hi p) (span (cls p) s) in
      if avail <? lo p then None
      else first_down (avail - lo p) (fun extra =>
             let n := lo p + extra in
             match match_here pat' (string_drop n s) with
             | Some m => Some (string_take n s ++ m)%string
             | None => None
             end)
  end.

(* [re.search(pat, s).group(0)]: the leftmost match. *)
Fixpoint re_search (pat : list piece) (s : string) : option string :=
  match match_here pat s with
  | Some m => Some m
  | None =>
      match s with
      | EmptyString => None
      | String _ s' => re_search pat s'
      end
  end.

Definition digit_char (d : nat) : ascii := ascii_of_nat (48 + d).

Definition fmt02 (n : nat) : string :=
  String (digit_char (n / 10)) (String (digit_char (n mod 10)) EmptyString).

Definition fmt04 (n : nat) : string := (fmt02 (n / 100) ++ fmt02 (n mod 100))%string.

(* now.strftime('%Y-%m-%d_%H-%M-%S') *)
Definition strftime (t : datetime) : string :=
  (fmt04 (year t) ++ "-" ++ fmt02 (month t) ++ "-" ++ fmt02 (day t) ++ "_" ++
   fmt02 (hour t) ++ "-" ++ fmt02 (minute t) ++ "-" ++ fmt02 (second t))%string.

Definition datetime_now (env : Env) : M datetime :=
  fun w => (Ok (now env (reads w)),
            mkWorld (probes w) (S (reads w)) (started w) (polls w)).

Definition make_filename (env : Env) (stream_name : string) : M string :=
  match re_search ip_pattern stream_name with
  | None => raise AttributeError
  | Some ip =>
      t <- datetime_now env ;;
      ret (ip ++ "_" ++ strftime t ++ ".mp4")%string
  end.

(** ** [record_video] and [create_thread] *)

(* [if audio_stream_name:] -- [None] and the empty string are both false. *)
Definition audio_given (audio_stream_name : option string) : bool :=
  match audio_stream_name with
  | Some s => negb (String.eqb s "")
  | None => false
  end.

(* The ffmpeg job [record_video] builds and runs. *)
Definition record_video (input_stream_name : string)
    (audio_stream_name : option string) (output_file_name : string) : recording :=
  if audio_given audio_stream_name
  then mkRecording (input_stream_name ::
                      match audio_stream_name with Some a => [a] | None => [] end)
                   output_file_name "copy" "aac"
  else mkRecording [input_stream_name] output_file_name "copy" "aac".

(* Python looks a global name up when the call is evaluated, in the name
   space of the module.  [globals] is that name space: what each name is
   bound to.  Only functions from a stream name to a file name are called
   through the table; the other bindings are listed so that the table is
   the whole name space.  The functions below that reach [create_thread]
   take the name space as the argument [g]; the script itself runs them
   in [module_globals]. *)
Inductive binding : Type :=
| FilenameFunction (f : string -> M string)
| OtherObject.

Definition globals : Type := list (string * binding).

(* The names bound at module level, in order of definition. *)
Definition module_globals (env : Env) : globals :=
  [("argparse", OtherObject); ("logging", OtherObject);
   ("threading", OtherObject); ("sys", OtherObject);
   ("datetime", OtherObject); ("time", OtherObject);
   ("re", OtherObject); ("ffmpeg", OtherObject);
   ("record_video", OtherObject);
   ("get_stream_delay", OtherObject);
   ("make_filename", FilenameFunction (make_filename env));
   ("create_thread", OtherObject);
   ("create_queue", OtherObject);
   ("start_queue", OtherObject);
   ("main", OtherObject)].

Fixpoint lookup_global (g : globals) (name : string) : option binding :=
  match g with
  | [] => None
  | (n, b) :: rest => if String.eqb n name then Some b else lookup_global rest name
  end.

(* Evaluate the call [name(arg)] in the name space [g]. *)
Definition call_global (g : globals) (name : string) (arg : string) : M string :=
  match lookup_global g name with
  | None => raise (NameError name)
  | Some (FilenameFunction f) => f arg
  | Some OtherObject => raise TypeError
  end.

(* threading.Thread(target=record_video, args=...); thread.start() *)
Definition thread_start (input_stream_name : string)
    (audio_stream_name : option string) (output_file_name : string) : M Thread :=
  fun w =>
    let thread := mkThread (List.length (started w)) input_stream_name
                    audio_stream_name output_file_name
                    (record_video input_stream_name audio_stream_name
                       output_file_name)
                    (reads w) in
    (Ok thread, mkWorld (probes w) (reads w) (thread :: started w) (polls w)).

Definition create_thread (g : globals) (input_stream_name : string)
    (audio_stream_name : option string) : M Thread :=
  output_file_name <- call_global g "get_filename" input_stream_name ;;
  thread_start input_stream_name audio_stream_name output_file_name.

(** ** [start_queue] *)

Definition time (env : Env) : M Q :=
  fun w => (Ok (clock env (reads w)),
            mkWorld (probes w) (S (reads w)) (started w) (polls w)).

(* [while time() - begin < delay: pass], at most [fuel] readings. *)
Fixpoint busy_wait (env : Env) (fuel : nat) (begin delay : Q) : M unit :=
  match fuel with
  | 0 => spin
  | S fuel' =>
      t <- time env ;;
      if Qlt_bool (t - begin) delay then busy_wait env fuel' begin delay
      else ret tt
  end.

(* [while queue: ...] (lines 113-118) *)
Fixpoint release (env : Env) (g : globals) (fuel : nat) (begin : Q)
    (queue : list entry) (audio_stream_name : option string)
    (threads : list Thread) : M (list Thread) :=
  match queue with
  | [] => ret threads
  | (stream_name, delay) :: queue' =>
      busy_wait env fuel begin delay ;;;
      thread <- create_thread g stream_name audio_stream_name ;;
      release env g fuel begin queue' audio_stream_name (threads ++ [thread])
  end.

Definition start_queue (env : Env) (g : globals) (fuel : nat)
    (queue : list entry) (audio_stream_name : option string) : M (list Thread) :=
  begin <- time env ;;
  release env g fuel begin queue audio_stream_name [].

(** ** [main] *)

Definition is_alive (env : Env) (thread : Thread) : M bool :=
  fun w => (Ok (alive env (polls w) (tid thread)),
            mkWorld (probes w) (reads w) (started w) (S (polls w))).

(* [threads.index(thread)]: thread objects compare by identity. *)
Fixpoint list_index (thread : Thread) (threads : list Thread) : option nat :=
  match threads with
  | [] => None
  | t :: rest =>
      if tid t =? tid thread then Some 0
      else option_map S (list_index thread rest)
  end.

Fixpoint list_set {A} (l : list A) (i : nat) (x : A) : list A :=
  match l, i with
  | [], _ => []
  | _ :: rest, 0 => x :: rest
  | y :: rest, S i' => y :: list_set rest i' x
  end.

(* One pass of [for thread in threads: ...] (lines 137-143); the list
   iterator is at position [k] and [n] bounds the positions still to
   visit.  The list is updated in place and keeps its length. *)
Fixpoint poll (env : Env) (g : globals) (n k : nat)
    (input_stream_names : list string) (audio_stream_name : option string)
    (threads : list Thread) : M (list Thread) :=
  match n with
  | 0 => ret threads
  | S n' =>
      match nth_error threads k with
      | None => ret threads
      | Some thread =>
          a <- is_alive env thread ;;
          if a
          then poll env g n' (S k) input_stream_names audio_stream_name threads
          else
            match list_index thread threads with
            | None => raise (ValueError "list.index(x): x not in list")
            | Some ind =>
                match nth_error input_stream_names ind with
                | None => raise IndexError
                | Some name =>
                    thread' <- create_thread g name audio_stream_name ;;
                    poll env g n' (S k) input_stream_names audio_stream_name
                      (list_set threads ind thread')
                end
            end
      end
  end.

(* [while True:], interrupted from the keyboard after [passes] passes. *)
Fixpoint supervise (env : Env) (g : globals) (passes : nat)
    (input_stream_names : list string) (audio_stream_name : option string)
    (threads : list Thread) : M (list Thread) :=
  match passes with
  | 0 => ret threads
  | S passes' =>
      threads' <- poll env g (List.length threads) 0 input_stream_names
                    audio_stream_name threads ;;
      supervise env g passes' input_stream_names audio_stream_name threads'
  end.

Definition config_error : exn :=
  ValueError "Number of delays must be equal to number of input streams".

Definition main (env : Env) (g : globals) (fuel passes : nat)
    (input_stream_names : list string) (audio_stream_name : option string)
    (delays : option (list Q)) : M unit :=
  (if delays_given delays
   then if negb (List.length input_stream_names =? List.length (delays_list delays))
        then raise config_error
        else ret tt
   else ret tt) ;;;
  queue <- create_queue env input_stream_names delays ;;
  threads <- start_queue env g fuel queue audio_stream_name ;;
  supervise env g passes input_stream_names audio_stream_name threads ;;;
  raise (SystemExit 0).

(* The name space in which [get_filename] names the file-name function:
   the module as it would be with line 69 calling [make_filename]. *)
Definition repaired_globals (env : Env) : globals :=
  ("get_filename", FilenameFunction (make_filename env)) :: module_globals env.

(** ** Derived notions used in the statements *)

(* What [get_stream_delay] returns, as a pure function of the probe. *)
Definition delay_of_probe (env : Env) (probe : option json) : exn + Q :=
  match probe with
  | None => inl FFmpegError
  | Some p =>
      match subscript p "streams" with
      | inl e => inl e
      | inr streams =>
          match py_iter streams with
          | inl e => inl e
          | inr items =>
              match next_video items with
              | inl e => inl e
              | inr video_stream =>
                  match subscript video_stream "start_time" with
                  | inl e => inl e
                  | inr start_time => py_float env start_time
                  end
              end
          end
      end
  end.

Definition probed (stream_name : string) (w : world) : world :=
  mkWorld (stream_name :: probes w) (reads w) (started w) (polls w).


(* The entries whose second component equals [q]. *)
Definition with_key (q : Q) (l : list entry) : list entry :=
  filter (fun e => Qeq_bool (snd e) q) l.


(* The delay given to an entry once the minimal offset [m] is known. *)
Definition shift (m : Q) (e : entry) : entry := (fst e, fsub (snd e) m).

(* The world after the sources [names] have been probed, in order. *)
Definition probed_all (names : list string) (w : world) : world :=
  mkWorld (rev names ++ probes w) (reads w) (started w) (polls w).

(** ** A concrete world, used to run the program *)

Definition camA : string := "rtsp://10.0.0.1/a".
Definition camB : string := "rtsp://10.0.0.2/b".
Definition camC : string := "rtsp://10.0.0.3/c".

Definition video_probe (start_time : string) : json :=
  JDict [("streams",
          JList [JDict [("codec_type", JStr "audio"); ("start_time", JStr "0.000000")];
                 JDict [("codec_type", JStr "video"); ("start_time", JStr start_time)]])].

Definition audio_only_probe : json :=
  JDict [("streams",
          JList [JDict [("codec_type", JStr "audio"); ("start_time", JStr "0.000000")]])].

(* camA starts at 3.0 s, camB at 1.0 s, camC has no video stream, every
   other source is unreachable.  A clock reading takes half a second on
   [time()] and 125 microseconds on [datetime.now()]; the first liveness
   query finds thread 0 dead, all later ones find every
   thread alive. *)
Definition example_env : Env :=
  mkEnv
    (fun name =>
       if String.eqb name camA then Some (video_probe "3.000000")
       else if String.eqb name camB then Some (video_probe "1.000000")
       else if String.eqb name camC then Some audio_only_probe
       else None)
    (fun s =>
       if String.eqb s "3.000000" then Some 3%Q
       else if String.eqb s "1.000000" then Some 1%Q
       else if String.eqb s "0.000000" then Some 0%Q
       else None)
    (fun k => (Z.of_nat k # 2)%Q)
    (fun k => mkDatetime 2024 5 17 9 30 (k / 8) (k mod 8 * 125))
    (fun k t => negb ((k =? 0) && (t =? 0))).

Definition fresh_world : world := mkWorld [] 0 [] 0.

(* The world in which [n] clock readings have been taken. *)
Definition at_reading (n : nat) : world := mkWorld [] n [] 0.

(* What Python guarantees of the fields of a [datetime] down to the
   second. *)
Definition well_formed (t : datetime) : Prop :=
  1 <= year t < 10 * 1000 /\ 1 <= month t <= 12 /\ 1 <= day t <= 31 /\
  hour t < 24 /\ minute t < 60 /\ second t < 60.

(* Two timestamps that agree down to the second. *)
Definition same_second (t1 t2 : datetime) : Prop :=
  year t1 = year t2 /\ month t1 = month t2 /\ day t1 = day t2 /\
  hour t1 = hour t2 /\ minute t1 = minute t2 /\ second t1 = second t2.

(** ** Notions used in the further properties *)

(* The environment of the example in which every source answers the
   probe [p]. *)
Definition probe_env (p : option json) : Env :=
  mkEnv (fun _ => p) (parse_float example_env) (clock example_env)
        (now example_env) (alive example_env).

(* The message of [float(s)] on a string it cannot read. *)
Definition float_error (s : string) : exn :=
  ValueError ("could not convert string to float: " ++ s)%string.







(* The name space [g] binds [get_filename] to the file-name function, as
   a caller that sets [FFmpeg_script.get_filename = make_filename] makes
   it. *)
Definition get_filename_bound (env : Env) (g : globals) : Prop :=
  lookup_global g "get_filename" = Some (FilenameFunction (make_filename env)).

(* An address is found in the source. *)
Definition has_address (stream_name : string) : Prop :=
  re_search ip_pattern stream_name <> None.

(* The environment of the example with threads that never die. *)
Definition healthy_env : Env :=
  mkEnv (ffprobe example_env) (parse_float example_env) (clock example_env)
        (now example_env) (fun _ _ => true).

(* The number of threads a pass over [threads] finds dead when its first
   liveness query is the [q]-th. *)
Fixpoint dead_count (env : Env) (q : nat) (threads : list Thread) : nat :=
  match threads with
  | [] => 0
  | t :: rest =>
      (if alive env q (tid t) then 0 else 1) + dead_count env (S q) rest
  end.

(* The thread list holds threads of distinct numbers, all below the number
   of threads started so far (a new thread is given the next number). *)
Definition registry_ok (threads : list Thread) (w : world) : Prop :=
  NoDup (map tid threads) /\
  Forall (fun t => tid t < List.length (started w)) threads.

(* The threads and the world after the release of the example queue, in
   the name space where [get_filename] is bound. *)
Definition example_threads : list Thread :=
  match fst (start_queue example_env (repaired_globals example_env) 8
               [(camB, 0%Q); (camA, 2%Q)] None fresh_world) with
  | Ok threads => threads
  | _ => []
  end.

Definition example_released : world :=
  snd (start_queue example_env (repaired_globals example_env) 8
         [(camB, 0%Q); (camA, 2%Q)] None fresh_world).

(** * Properties *)

(** ** Running a computation *)

Lemma bind_ok {A B} (m : M A) (k : A -> M B) w a w' :
  m w = (Ok a, w') -> bind m k w = k a w'.
Proof. unfold bind. intros ->. reflexivity. Qed.

Lemma bind_raise {A B} (m : M A) (k : A -> M B) w e w' :
  m w = (Raise e, w') -> bind m k w = (Raise e, w').
Proof. unfold bind. intros ->. reflexivity. Qed.

Lemma bind_spin {A B} (m : M A) (k : A -> M B) w w' :
  m w = (OutOfFuel, w') -> bind m k w = (OutOfFuel, w').
Proof. unfold bind. intros ->. reflexivity. Qed.

Lemma bind_lift {A B} (r : exn + A) (k : A -> M B) w :
  bind (lift r) k w =
  match r with inl e => (Raise e, w) | inr a => k a w end.
Proof. destruct r; reflexivity. Qed.

(** ** The offset prober *)

Lemma is_video_true_nonempty stream :
  is_video stream = inr true -> truthy stream = true.
Proof.
  destruct stream as [| | | |items|fields]; simpl; try discriminate.
  destruct fields as [|kv rest]; simpl; [discriminate|reflexivity].
Qed.

Lemma next_video_truthy items v :
  next_video items = inr v -> truthy v = true.
Proof.
  induction items as [|stream rest IH]; simpl; [discriminate|].
  destruct (is_video stream) as [e|[|]] eqn:E; try discriminate.
  - intros [= <-]. now apply is_video_true_nonempty.
  - exact IH.
Qed.

Lemma next_video_none items :
  Forall (fun stream => is_video stream = inr false) items ->
  next_video items = inl StopIteration.
Proof.
  induction 1 as [|stream rest Hs _ IH]; simpl; [reflexivity|].
  now rewrite Hs.
Qed.

Lemma next_video_not_value_error items msg :
  next_video items <> inl (ValueError msg).
Proof.
  induction items as [|stream rest IH]; simpl; [discriminate|].
  destruct (is_video stream) as [e|[|]] eqn:E; try discriminate; auto.
  destruct stream as [| | | |l|fields]; simpl in E; try (injection E as <-; discriminate).
  destruct (dict_get "codec_type" fields) as [[| | | | |]|];
    try discriminate; injection E as <-; discriminate.
Qed.

Lemma subscript_not_value_error v key msg :
  subscript v key <> inl (ValueError msg).
Proof.
  destruct v; simpl; try discriminate.
  destruct (dict_get key fields); discriminate.
Qed.

Lemma py_iter_not_value_error v msg : py_iter v <> inl (ValueError msg).
Proof. destruct v; discriminate. Qed.

Lemma py_float_not_no_video env v : py_float env v <> inl (ValueError no_video_msg).
Proof.
  destruct v; simpl; try discriminate.
  destruct (parse_float env s); discriminate.
Qed.

Lemma get_stream_delay_eq env stream_name w :
  get_stream_delay env stream_name w =
  (match delay_of_probe env (ffprobe env stream_name) with
   | inl e => Raise e
   | inr q => Ok q
   end, probed stream_name w).
Proof.
  unfold get_stream_delay, bind at 1, ffmpeg_probe, delay_of_probe.
  destruct (ffprobe env stream_name) as [p|]; [|reflexivity].
  fold (probed stream_name w).
  rewrite bind_lift. destruct (subscript p "streams") as [e|streams]; [reflexivity|].
  rewrite bind_lift. destruct (py_iter streams) as [e|items]; [reflexivity|].
  rewrite bind_lift. destruct (next_video items) as [e|v] eqn:Hn; [reflexivity|].
  cbv beta. rewrite (next_video_truthy _ _ Hn). cbv beta iota delta [negb].
  rewrite bind_lift. destruct (subscript v "start_time") as [e|st]; [reflexivity|].
  unfold lift. destruct (py_float env st); reflexivity.
Qed.

(** ** Sorting by delay *)

Lemma Qlt_bool_iff x y : Qlt_bool x y = true <-> (x < y)%Q.
Proof.
  unfold Qlt_bool. rewrite negb_true_iff, <- not_true_iff_false, Qle_bool_iff.
  split; [apply Qnot_le_lt | apply Qlt_not_le].
Qed.

Lemma Qlt_bool_false x y : Qlt_bool x y = false <-> (y <= x)%Q.
Proof.
  unfold Qlt_bool. rewrite negb_false_iff. apply Qle_bool_iff.
Qed.

Lemma sort_insert_perm x l : Permutation (sort_insert x l) (x :: l).
Proof.
  induction l as [|y rest IH]; simpl; [reflexivity|].
  destruct (Qlt_bool (snd x) (snd y)); [reflexivity|].
  rewrite IH. apply perm_swap.
Qed.


Lemma fold_insert_perm l acc :
  Permutation (fold_left (fun sorted x => sort_insert x sorted) l acc) (acc ++ l).
Proof.
  revert acc. induction l as [|x rest IH]; intros acc; simpl.
  - now rewrite app_nil_r.
  - rewrite IH, sort_insert_perm. apply Permutation_middle.
Qed.


Lemma list_sort_perm l : Permutation (list_sort l) l.
Proof. unfold list_sort. now rewrite fold_insert_perm. Qed.



Lemma with_key_app q l1 l2 : with_key q (l1 ++ l2) = with_key q l1 ++ with_key q l2.
Proof. apply filter_app. Qed.



(** ** The minimal delay *)

Lemma min_from_spec best l :
  In (min_from best l) (best :: l) /\
  forall y, In y (best :: l) -> (snd (min_from best l) <= snd y)%Q.
Proof.
  revert best. induction l as [|x rest IH]; intros best; simpl.
  - split; [now left|]. intros y [<-|[]]. apply Qle_refl.
  - destruct (IH (if Qlt_bool (snd x) (snd best) then x else best)) as [Hin Hle].
    split.
    + destruct Hin as [Hin|Hin]; [|now right; right].
      rewrite <- Hin. destruct (Qlt_bool (snd x) (snd best)); [right|]; now left.
    + intros y Hy.
      destruct (Qlt_bool (snd x) (snd best)) eqn:E.
      * apply Qlt_bool_iff in E.
        destruct Hy as [<-|[<-|Hy]].
        -- apply Qle_trans with (snd x); [apply Hle; now left|now apply Qlt_le_weak].
        -- apply Hle. now left.
        -- apply Hle. now right.
      * apply Qlt_bool_false in E.
        destruct Hy as [<-|[<-|Hy]].
        -- apply Hle. now left.
        -- apply Qle_trans with (snd best); [apply Hle; now left|exact E].
        -- apply Hle. now right.
Qed.





(** ** [normalize]: what lines 93-100 return *)

Lemma list_sort_nonempty l : l <> [] -> list_sort l <> [].
Proof.
  intros Hl Hs. apply Hl. apply Permutation_nil.
  rewrite <- Hs. apply list_sort_perm.
Qed.

Lemma normalize_spec pairs w :
  pairs <> [] ->
  exists m,
    In m pairs /\
    (forall y, In y pairs -> (snd m <= snd y)%Q) /\
    normalize pairs w = (Ok (map (shift (snd m)) (list_sort pairs)), w).
Proof.
  intros Hne. unfold normalize.
  destruct (list_sort pairs) as [|x rest] eqn:E.
  - now apply list_sort_nonempty in E.
  - destruct (min_from_spec x rest) as [Hin Hle].
    exists (min_from x rest). rewrite <- E in Hin, Hle. split; [|split].
    + now apply (Permutation_in _ (list_sort_perm pairs)).
    + intros y Hy. apply Hle.
      now apply (Permutation_in _ (Permutation_sym (list_sort_perm pairs))).
    + reflexivity.
Qed.

Lemma map_fst_shift m l : map fst (map (shift m) l) = map fst l.
Proof. rewrite map_map. now apply map_ext. Qed.





(** ** Probing every source *)

Lemma probed_all_cons s names w :
  probed_all names (probed s w) = probed_all (s :: names) w.
Proof.
  unfold probed_all, probed. simpl. now rewrite <- app_assoc.
Qed.

Lemma probe_all_ok env (pairs : list entry) queue w :
  Forall (fun p => delay_of_probe env (ffprobe env (fst p)) = inr (snd p)) pairs ->
  probe_all env (map fst pairs) queue w =
  (Ok (queue ++ pairs), probed_all (map fst pairs) w).
Proof.
  intros H. revert queue w.
  induction H as [|[s q] rest Hp _ IH]; intros queue w; simpl.
  - rewrite app_nil_r. now destruct w.
  - simpl in Hp. erewrite bind_ok.
    2:{ rewrite get_stream_delay_eq, Hp. reflexivity. }
    rewrite IH, probed_all_cons, <- app_assoc. reflexivity.
Qed.

Lemma probe_all_covers env names queue w queue' w' :
  probe_all env names queue w = (Ok queue', w') ->
  exists pairs,
    map fst pairs = names /\ queue' = queue ++ pairs /\
    Forall (fun p => delay_of_probe env (ffprobe env (fst p)) = inr (snd p)) pairs.
Proof.
  revert queue w. induction names as [|s rest IH]; intros queue w; simpl.
  - intros [= <- <-]. exists []. now rewrite app_nil_r.
  - unfold bind. rewrite get_stream_delay_eq.
    destruct (delay_of_probe env (ffprobe env s)) as [e|q] eqn:E; [discriminate|].
    intros H. destruct (IH _ _ H) as (pairs & Hn & Hq & Hall).
    exists ((s, q) :: pairs). simpl. rewrite Hn. split; [reflexivity|]. split.
    + now rewrite Hq, <- app_assoc.
    + constructor; assumption.
Qed.

Lemma probe_all_first_failure env pre s post e queue w :
  Forall (fun n => exists q, delay_of_probe env (ffprobe env n) = inr q) pre ->
  delay_of_probe env (ffprobe env s) = inl e ->
  probe_all env (pre ++ s :: post) queue w =
  (Raise e, probed s (probed_all pre w)).
Proof.
  intros Hpre Hs. revert queue w.
  induction Hpre as [|n pre [q Hn] _ IH]; intros queue w; simpl.
  - erewrite bind_raise; [reflexivity|].
    rewrite get_stream_delay_eq, Hs. now destruct w.
  - erewrite bind_ok.
    2:{ rewrite get_stream_delay_eq, Hn. reflexivity. }
    now rewrite IH, probed_all_cons.
Qed.

(* Some source fails: split the list at the first one that does. *)
Lemma first_failure_split env names s e :
  In s names ->
  delay_of_probe env (ffprobe env s) = inl e ->
  exists pre s' post e',
    names = pre ++ s' :: post /\
    Forall (fun n => exists q, delay_of_probe env (ffprobe env n) = inr q) pre /\
    delay_of_probe env (ffprobe env s') = inl e'.
Proof.
  induction names as [|n rest IH]; intros Hin Hs; [contradiction|].
  destruct (delay_of_probe env (ffprobe env n)) as [e'|q] eqn:E.
  - exists [], n, rest, e'. now repeat split.
  - destruct Hin as [->|Hin]; [congruence|].
    destruct (IH Hin Hs) as (pre & s' & post & e' & -> & Hpre & Hs').
    exists (n :: pre), s', post, e'. repeat split; [|assumption].
    constructor; [now exists q|assumption].
Qed.

(** ** Lists *)




(** ** The claims about the prober and the queue *)

Lemma get_stream_delay_ok env s w q :
  fst (get_stream_delay env s w) = Ok q <->
  delay_of_probe env (ffprobe env s) = inr q.
Proof.
  rewrite get_stream_delay_eq. simpl.
  destruct (delay_of_probe env (ffprobe env s)); split; congruence.
Qed.

Lemma get_stream_delay_raise env s w e :
  fst (get_stream_delay env s w) = Raise e <->
  delay_of_probe env (ffprobe env s) = inl e.
Proof.
  rewrite get_stream_delay_eq. simpl.
  destruct (delay_of_probe env (ffprobe env s)); split; congruence.
Qed.

Lemma is_video_not_stop stream : is_video stream <> inl StopIteration.
Proof.
  destruct stream; simpl; try discriminate.
  destruct (dict_get "codec_type" fields) as [[| | | | |]|]; discriminate.
Qed.

Lemma next_video_stop items :
  next_video items = inl StopIteration <->
  Forall (fun stream => is_video stream = inr false) items.
Proof.
  split; [|apply next_video_none].
  induction items as [|stream rest IH]; simpl; [constructor|].
  destruct (is_video stream) as [e|[|]] eqn:E.
  - intros [= ->]. now apply is_video_not_stop in E.
  - discriminate.
  - intros H. constructor; auto.
Qed.

Lemma next_video_found items v :
  next_video items = inr v -> In v items /\ is_video v = inr true.
Proof.
  induction items as [|stream rest IH]; simpl; [discriminate|].
  destruct (is_video stream) as [e|[|]] eqn:E; try discriminate.
  - intros [= <-]. split; [now left|assumption].
  - intros H. destruct (IH H). split; [now right|assumption].
Qed.

(** C10: the [ValueError("No video stream found")] branch of
    [get_stream_delay] is dead code.  Whatever the probe lists, [next]
    either returns a stream that passed the [codec_type == "video"] test,
    which is a non-empty dict and so skips the guard, or it raises before
    the guard is reached -- [StopIteration] exactly when no listed stream
    is a video stream.  When every listed stream has a [codec_type] these
    are the only two cases.  Hence the function never raises that
    error. *)
Theorem no_video_guard_unreachable (env : Env) (stream_name : string) (w : world) :
  (forall items,
     match next_video items with
     | inr v => In v items /\ is_video v = inr true /\ truthy v = true
     | inl e => forall msg, e <> ValueError msg
     end) /\
  (forall items,
     next_video items = inl StopIteration <->
     Forall (fun stream => is_video stream = inr false) items) /\
  (forall items,
     Forall (fun stream => exists b, is_video stream = inr b) items ->
     (exists v, next_video items = inr v /\ truthy v = true) \/
     next_video items = inl StopIteration) /\
  fst (get_stream_delay env stream_name w) <> Raise (ValueError no_video_msg).
Proof.
  split; [|split; [|split]].
  - intros items. destruct (next_video items) as [e|v] eqn:E.
    + intros msg ->. exact (next_video_not_value_error _ _ E).
    + destruct (next_video_found _ _ E). repeat split; try assumption.
      exact (next_video_truthy _ _ E).
  - apply next_video_stop.
  - intros items Hwf. destruct (next_video items) as [e|v] eqn:E.
    + right. f_equal. revert E.
      induction Hwf as [|stream rest [b Hb] _ IH]; simpl; [congruence|].
      rewrite Hb. destruct b; [discriminate|exact IH].
    + left. exists v. split; [reflexivity|exact (next_video_truthy _ _ E)].
  - rewrite get_stream_delay_raise. unfold delay_of_probe.
    destruct (ffprobe env stream_name) as [p|]; [|discriminate].
    destruct (subscript p "streams") as [e|streams] eqn:E1.
    { intros [= ->]. exact (subscript_not_value_error _ _ _ E1). }
    destruct (py_iter streams) as [e|items] eqn:E2.
    { intros [= ->]. exact (py_iter_not_value_error _ _ E2). }
    destruct (next_video items) as [e|v] eqn:E3.
    { intros [= ->]. exact (next_video_not_value_error _ _ E3). }
    destruct (subscript v "start_time") as [e|st] eqn:E4.
    { intros [= ->]. exact (subscript_not_value_error _ _ _ E4). }
    apply py_float_not_no_video.
Qed.


Lemma create_queue_probed env (pairs : list entry) delays w :
  delays_given delays = false ->
  Forall (fun p => fst (get_stream_delay env (fst p) w) = Ok (snd p)) pairs ->
  create_queue env (map fst pairs) delays w =
  normalize pairs (probed_all (map fst pairs) w).
Proof.
  intros Hd Hall. unfold create_queue. rewrite Hd.
  erewrite bind_ok; [reflexivity|].
  rewrite probe_all_ok; [reflexivity|].
  eapply Forall_impl; [|exact Hall].
  intros p Hp. now apply get_stream_delay_ok in Hp.
Qed.



(* The scenario of the specification: offsets 3.0 and 1.0. *)
Example create_queue_scenario :
  create_queue example_env [camA; camB] None fresh_world =
  (Ok [(camB, 0%Q); (camA, 2%Q)], probed_all [camA; camB] fresh_world).
Proof. reflexivity. Qed.



Example create_queue_ties :
  create_queue example_env [camA; camB; camC] (Some [3%Q; 1%Q; 3%Q]) fresh_world =
  (Ok [(camB, 0%Q); (camA, 2%Q); (camC, 2%Q)], fresh_world).
Proof. reflexivity. Qed.

(** C6: with the offsets omitted, one failing probe fails the whole
    build.  [create_queue] raises the error of the first source whose
    probe fails, having probed nothing after it; a probe that lists no
    video stream fails with [StopIteration]; and a queue, when one is
    returned, holds every source. *)
Theorem probe_failure_aborts_build (env : Env) (input_stream_names : list string)
    (delays : option (list Q)) (w : world) :
  delays_given delays = false ->
  (forall s e,
     In s input_stream_names ->
     fst (get_stream_delay env s w) = Raise e ->
     exists pre s' post e',
       input_stream_names = pre ++ s' :: post /\
       Forall (fun n => exists q, fst (get_stream_delay env n w) = Ok q) pre /\
       fst (get_stream_delay env s' w) = Raise e' /\
       create_queue env input_stream_names delays w =
       (Raise e', probed s' (probed_all pre w))) /\
  (forall s fields items,
     ffprobe env s = Some (JDict fields) ->
     dict_get "streams" fields = Some (JList items) ->
     Forall (fun stream => is_video stream = inr false) items ->
     fst (get_stream_delay env s w) = Raise StopIteration) /\
  (forall queue w',
     create_queue env input_stream_names delays w = (Ok queue, w') ->
     Permutation (map fst queue) input_stream_names).
Proof.
  intros Hd. split; [|split].
  - intros s e Hin Hs. apply get_stream_delay_raise in Hs.
    destruct (first_failure_split env _ _ _ Hin Hs)
      as (pre & s' & post & e' & -> & Hpre & Hs').
    exists pre, s', post, e'. repeat split.
    + eapply Forall_impl; [|exact Hpre].
      intros n [q Hq]. exists q. now apply get_stream_delay_ok.
    + now apply get_stream_delay_raise.
    + unfold create_queue. rewrite Hd.
      erewrite bind_raise; [reflexivity|].
      now apply probe_all_first_failure.
  - intros s fields items Hp Hf Hnone.
    apply get_stream_delay_raise. unfold delay_of_probe. rewrite Hp.
    simpl. rewrite Hf. simpl. now rewrite (next_video_none _ Hnone).
  - intros queue w'. unfold create_queue. rewrite Hd. unfold bind at 1.
    destruct (probe_all env input_stream_names [] w) as [[q| |] w1] eqn:E;
      try discriminate.
    destruct (probe_all_covers _ _ _ _ _ _ E) as (pairs & Hn & -> & _).
    simpl. unfold normalize. rewrite bind_lift.
    destruct (py_min (list_sort pairs)) as [e|m]; [discriminate|].
    intros [= <- _]. rewrite <- Hn.
    change (Permutation (map fst (map (shift (snd m)) (list_sort pairs)))
              (map fst pairs)).
    rewrite map_fst_shift. apply Permutation_map, list_sort_perm.
Qed.

Lemma probe_failure_aborts_build_witness :
  delays_given None = false /\
  (forall s e,
     In s [camB; camC; camA] ->
     fst (get_stream_delay example_env s fresh_world) = Raise e ->
     exists pre s' post e',
       [camB; camC; camA] = pre ++ s' :: post /\
       Forall (fun n => exists q, fst (get_stream_delay example_env n fresh_world) = Ok q) pre /\
       fst (get_stream_delay example_env s' fresh_world) = Raise e' /\
       create_queue example_env [camB; camC; camA] None fresh_world =
       (Raise e', probed s' (probed_all pre fresh_world))) /\
  (forall s fields items,
     ffprobe example_env s = Some (JDict fields) ->
     dict_get "streams" fields = Some (JList items) ->
     Forall (fun stream => is_video stream = inr false) items ->
     fst (get_stream_delay example_env s fresh_world) = Raise StopIteration) /\
  (forall queue w',
     create_queue example_env [camB; camC; camA] None fresh_world = (Ok queue, w') ->
     Permutation (map fst queue) [camB; camC; camA]).
Proof.
  split; [reflexivity|].
  apply (probe_failure_aborts_build example_env [camB; camC; camA] None fresh_world).
  reflexivity.
Defined.

(* camC lists no video stream: the build stops there, camA is not probed. *)
Example create_queue_audio_only :
  create_queue example_env [camB; camC; camA] None fresh_world =
  (Raise StopIteration, probed camC (probed_all [camB] fresh_world)).
Proof. reflexivity. Qed.

(** ** Launching a recording thread *)

Lemma lookup_get_filename env :
  lookup_global (module_globals env) "get_filename" = None.
Proof. reflexivity. Qed.

Lemma release_module_globals env fuel begin stream_name delay queue audio threads w :
  exists w',
    (release env (module_globals env) fuel begin ((stream_name, delay) :: queue)
       audio threads w = (Raise (NameError "get_filename"), w') \/
     release env (module_globals env) fuel begin ((stream_name, delay) :: queue)
       audio threads w = (OutOfFuel, w')) /\
    started w' = started w /\ probes w' = probes w /\ polls w' = polls w.
Proof.
  cbn [release].
  assert (H : forall w, exists r w',
             busy_wait env fuel begin delay w = (r, w') /\ r <> Raise config_error /\
             (forall e, r <> Raise e) /\
             started w' = started w /\ probes w' = probes w /\ polls w' = polls w).
  { clear. induction fuel as [|fuel IH]; intros w; simpl.
    - exists OutOfFuel, w. repeat split; discriminate.
    - unfold bind, time.
      destruct (Qlt_bool (clock env (reads w) - begin) delay).
      + destruct (IH (mkWorld (probes w) (S (reads w)) (started w) (polls w)))
          as (r & w' & -> & H1 & H2 & H3 & H4 & H5).
        exists r, w'. repeat split; assumption.
      + eexists _, _. split; [reflexivity|]. repeat split; discriminate. }
  destruct (H w) as (r & w' & Hb & _ & Hr & Hs & Hp & Hq).
  exists w'. split; [|now repeat split].
  destruct r as [[]|e|].
  - left. now rewrite (bind_ok _ _ _ _ _ Hb).
  - now destruct (Hr e).
  - right. now rewrite (bind_spin _ _ _ _ Hb).
Qed.

Lemma start_queue_module_globals env fuel stream_name delay queue audio w :
  exists w',
    (start_queue env (module_globals env) fuel ((stream_name, delay) :: queue)
       audio w = (Raise (NameError "get_filename"), w') \/
     start_queue env (module_globals env) fuel ((stream_name, delay) :: queue)
       audio w = (OutOfFuel, w')) /\
    started w' = started w /\ probes w' = probes w /\ polls w' = polls w.
Proof.
  unfold start_queue.
  rewrite (bind_ok (time env) _ w (clock env (reads w))
             (mkWorld (probes w) (S (reads w)) (started w) (polls w)))
    by reflexivity.
  destruct (release_module_globals env fuel (clock env (reads w)) stream_name
              delay queue audio []
              (mkWorld (probes w) (S (reads w)) (started w) (polls w)))
    as (w' & H & Hs & Hp & Hq).
  exists w'. now repeat split.
Qed.

Lemma probe_all_started env names queue w :
  started (snd (probe_all env names queue w)) = started w.
Proof.
  revert queue w. induction names as [|s rest IH]; intros queue w; simpl.
  - reflexivity.
  - unfold bind. rewrite get_stream_delay_eq.
    destruct (delay_of_probe env (ffprobe env s)); [reflexivity|].
    now rewrite IH.
Qed.

Lemma normalize_world queue w : snd (normalize queue w) = w.
Proof.
  unfold normalize. rewrite bind_lift.
  now destruct (py_min (list_sort queue)).
Qed.

Lemma create_queue_started env names delays w :
  started (snd (create_queue env names delays w)) = started w.
Proof.
  unfold create_queue. destruct (delays_given delays).
  - rewrite (bind_ok _ _ w (combine names (delays_list delays)) w) by reflexivity.
    now rewrite normalize_world.
  - unfold bind.
    destruct (probe_all env names [] w) as [[q|e|] w1] eqn:E;
      try (rewrite <- (probe_all_started env names [] w); now rewrite E).
    rewrite normalize_world.
    rewrite <- (probe_all_started env names [] w). now rewrite E.
Qed.

Lemma supervise_no_threads env g passes names audio w :
  supervise env g passes names audio [] w = (Ok [], w).
Proof. induction passes as [|passes IH]; simpl; [reflexivity|exact IH]. Qed.

(* No run of the script starts a thread. *)
Lemma main_starts_no_thread env fuel passes names audio delays w :
  started (snd (main env (module_globals env) fuel passes names audio delays w)) =
  started w.
Proof.
  unfold main. unfold bind at 1.
  destruct (delays_given delays);
    [destruct (negb (List.length names =? List.length (delays_list delays)));
       [reflexivity|]|];
    cbv beta iota delta [ret].
  all: unfold bind at 1;
    pose proof (create_queue_started env names delays w) as Hc;
    destruct (create_queue env names delays w) as [[q|e|] w1];
      simpl in Hc; [|exact Hc|exact Hc];
    destruct q as [|[n d] q];
    [ unfold start_queue, bind, time; simpl; rewrite supervise_no_threads;
      simpl; exact Hc
    | destruct (start_queue_module_globals env fuel n d q audio w1)
        as (w' & [H | H] & Hs & _);
      [rewrite (bind_raise _ _ _ _ _ H)|rewrite (bind_spin _ _ _ _ H)];
      simpl; congruence ].
Qed.

(** C3: [create_thread] does not start a recording.  Its argument tuple
    calls [get_filename], a name the module never binds (the file-name
    function is defined as [make_filename]); for every source the call
    raises [NameError] before any thread object is made and the world is
    left untouched.  Hence no run of [main] ever starts a thread. *)
Theorem create_thread_name_error (env : Env) (input_stream_name : string)
    (audio_stream_name : option string) (w : world) :
  lookup_global (module_globals env) "get_filename" = None /\
  create_thread (module_globals env) input_stream_name audio_stream_name w =
  (Raise (NameError "get_filename"), w) /\
  (forall fuel passes input_stream_names delays,
     started (snd (main env (module_globals env) fuel passes input_stream_names
                     audio_stream_name delays w)) = started w).
Proof.
  split; [reflexivity|]. split; [reflexivity|].
  intros. apply main_starts_no_thread.
Qed.

(* With the name bound to [make_filename], one thread is started, named
   after the source and the time of the call. *)
Lemma create_thread_repaired env input_stream_name audio_stream_name w ip :
  re_search ip_pattern input_stream_name = Some ip ->
  exists thread,
    create_thread (repaired_globals env) input_stream_name audio_stream_name w =
    (Ok thread, mkWorld (probes w) (S (reads w)) (thread :: started w) (polls w)) /\
    tid thread = List.length (started w) /\
    t_input thread = input_stream_name /\
    t_output thread = (ip ++ "_" ++ strftime (now env (reads w)) ++ ".mp4")%string.
Proof.
  intros Hip. unfold create_thread, call_global. simpl lookup_global.
  unfold bind, make_filename. rewrite Hip. simpl.
  eexists. split; [reflexivity|]. now repeat split.
Qed.

(** ** The check of the offsets count *)

(** C5, as amended: a supplied, non-empty offsets list whose length
    differs from the number of sources makes [main] raise the
    configuration error at once; nothing is probed, no clock is read and
    no thread is started. *)
Theorem mismatched_offsets_rejected (env : Env) (g : globals) (fuel passes : nat)
    (input_stream_names : list string) (audio_stream_name : option string)
    (delays : list Q) (w : world) :
  delays <> [] ->
  List.length delays <> List.length input_stream_names ->
  main env g fuel passes input_stream_names audio_stream_name (Some delays) w =
  (Raise config_error, w).
Proof.
  intros Hne Hlen. unfold main.
  destruct delays as [|d ds]; [congruence|].
  erewrite bind_raise; [reflexivity|].
  cbv beta iota delta [delays_given delays_list].
  destruct (Nat.eqb_spec (List.length input_stream_names) (List.length (d :: ds)))
    as [E|E]; [congruence|]. reflexivity.
Qed.

Lemma mismatched_offsets_rejected_witness :
  [1%Q] <> [] /\
  List.length [1%Q] <> List.length [camA; camB] /\
  main example_env (module_globals example_env) 4 1 [camA; camB] None
    (Some [1%Q]) fresh_world = (Raise config_error, fresh_world).
Proof.
  split; [discriminate|]. split; [discriminate|].
  apply (mismatched_offsets_rejected example_env (module_globals example_env)
           4 1 [camA; camB] None [1%Q] fresh_world); discriminate.
Defined.

(** C5, as stated, fails: an offsets list that is supplied but empty has
    a length different from that of the sources, yet [main] raises no
    configuration error; it goes on to probe the source and build the
    queue. *)
Lemma empty_offsets_not_rejected :
  [camA] <> [] /\
  List.length (@nil Q) <> List.length [camA] /\
  fst (main example_env (module_globals example_env) 4 1 [camA] None
         (Some []) fresh_world) <> Raise config_error /\
  probes (snd (main example_env (module_globals example_env) 4 1 [camA] None
                 (Some []) fresh_world)) = [camA] /\
  create_queue example_env [camA] (Some []) fresh_world =
  (Ok [(camA, 0%Q)], probed camA fresh_world).
Proof.
  repeat split; try discriminate.
Qed.

Lemma delay_of_probe_not_config env probe :
  delay_of_probe env probe <> inl config_error.
Proof.
  unfold delay_of_probe, config_error.
  destruct probe as [p|]; [|discriminate].
  destruct (subscript p "streams") as [e|streams] eqn:E1.
  { intros [= ->]. exact (subscript_not_value_error _ _ _ E1). }
  destruct (py_iter streams) as [e|items] eqn:E2.
  { intros [= ->]. exact (py_iter_not_value_error _ _ E2). }
  destruct (next_video items) as [e|v] eqn:E3.
  { intros [= ->]. exact (next_video_not_value_error _ _ E3). }
  destruct (subscript v "start_time") as [e|st] eqn:E4.
  { intros [= ->]. exact (subscript_not_value_error _ _ _ E4). }
  destruct st; simpl; try discriminate.
  destruct (parse_float env s); discriminate.
Qed.

Lemma probe_all_not_config env names queue w w' :
  probe_all env names queue w <> (Raise config_error, w').
Proof.
  revert queue w. induction names as [|s rest IH]; intros queue w; simpl.
  - discriminate.
  - unfold bind. rewrite get_stream_delay_eq.
    destruct (delay_of_probe env (ffprobe env s)) as [e|q] eqn:E.
    + intros [= -> _]. exact (delay_of_probe_not_config _ _ E).
    + apply IH.
Qed.

Lemma create_queue_not_config env names delays w w' :
  names <> [] -> delays_given delays = false ->
  create_queue env names delays w <> (Raise config_error, w').
Proof.
  intros Hne Hd. unfold create_queue. rewrite Hd. unfold bind.
  destruct (probe_all env names [] w) as [[q|e|] w1] eqn:E.
  - destruct (probe_all_covers _ _ _ _ _ _ E) as (pairs & Hn & -> & _).
    simpl. assert (Hp : pairs <> []) by (intros ->; now apply Hne).
    destruct (normalize_spec pairs w1 Hp) as (m & _ & _ & ->). discriminate.
  - intros [= -> _]. exact (probe_all_not_config _ _ _ _ _ E).
  - discriminate.
Qed.

(** C9: an offsets list that is supplied but empty is treated exactly as
    omitted offsets.  [main] does the same thing in both cases, does not
    raise the configuration error when there are sources, and the queue is
    built by probing: every source is probed, in input order, when the
    probes succeed. *)
Theorem empty_offsets_probe (env : Env) (fuel passes : nat)
    (input_stream_names : list string) (audio_stream_name : option string)
    (w : world) :
  input_stream_names <> [] ->
  (forall g,
     main env g fuel passes input_stream_names audio_stream_name (Some []) w =
     main env g fuel passes input_stream_names audio_stream_name None w) /\
  fst (main env (module_globals env) fuel passes input_stream_names
         audio_stream_name (Some []) w) <> Raise config_error /\
  create_queue env input_stream_names (Some []) w =
  create_queue env input_stream_names None w /\
  create_queue env input_stream_names (Some []) w =
  (queue <- probe_all env input_stream_names [] ;; normalize queue) w /\
  (Forall (fun s => exists q, fst (get_stream_delay env s w) = Ok q)
     input_stream_names ->
   exists queue,
     create_queue env input_stream_names (Some []) w =
     (Ok queue, probed_all input_stream_names w)).
Proof.
  intros Hne. split; [reflexivity|].
  split; [|split; [reflexivity|split; [reflexivity|]]].
  - unfold main. rewrite (bind_ok _ _ w tt w) by reflexivity.
    destruct (create_queue env input_stream_names (Some []) w) as [[q|e|] w1] eqn:E.
    + rewrite (bind_ok _ _ _ _ _ E).
      destruct q as [|[n d] q].
      * (* an empty queue cannot come from a non-empty source list *)
        exfalso. revert E. unfold create_queue.
        cbv beta iota delta [delays_given]. unfold bind.
        destruct (probe_all env input_stream_names [] w) as [[q'|e'|] w2] eqn:E2;
          try discriminate.
        destruct (probe_all_covers _ _ _ _ _ _ E2) as (pairs & Hn & -> & _).
        simpl. assert (Hp : pairs <> []) by (intros ->; now apply Hne).
        destruct (normalize_spec pairs w2 Hp) as (m & _ & _ & ->).
        intros [= H _]. apply map_eq_nil in H.
        exact (list_sort_nonempty _ Hp H).
      * destruct (start_queue_module_globals env fuel n d q audio_stream_name w1)
          as (w' & [H | H] & _).
        -- rewrite (bind_raise _ _ _ _ _ H). discriminate.
        -- rewrite (bind_spin _ _ _ _ H). discriminate.
    + rewrite (bind_raise _ _ _ _ _ E). simpl. intros [= ->].
      revert E. now apply create_queue_not_config.
    + rewrite (bind_spin _ _ _ _ E). discriminate.
  - intros Hall.
    assert (Hp : exists pairs : list entry, map fst pairs = input_stream_names /\
               Forall (fun p => fst (get_stream_delay env (fst p) w) = Ok (snd p)) pairs).
    { clear Hne. induction Hall as [|s rest [q Hq] _ (pairs & Hm & Hf)].
      - now exists [].
      - exists ((s, q) :: pairs). simpl. rewrite Hm. split; [reflexivity|].
        now constructor. }
    destruct Hp as (pairs & <- & Hf).
    assert (Hp : pairs <> []) by (intros ->; now apply Hne).
    rewrite (create_queue_probed env pairs (Some []) w eq_refl Hf).
    destruct (normalize_spec pairs (probed_all (map fst pairs) w) Hp)
      as (m & _ & _ & ->).
    now eexists.
Qed.

Lemma empty_offsets_probe_witness :
  [camA; camB] <> [] /\
  (forall g,
     main example_env g 4 1 [camA; camB] None (Some []) fresh_world =
     main example_env g 4 1 [camA; camB] None None fresh_world) /\
  fst (main example_env (module_globals example_env) 4 1 [camA; camB] None
         (Some []) fresh_world) <> Raise config_error /\
  create_queue example_env [camA; camB] (Some []) fresh_world =
  create_queue example_env [camA; camB] None fresh_world /\
  create_queue example_env [camA; camB] (Some []) fresh_world =
  (queue <- probe_all example_env [camA; camB] [] ;; normalize queue) fresh_world /\
  (Forall (fun s => exists q, fst (get_stream_delay example_env s fresh_world) = Ok q)
     [camA; camB] ->
   exists queue,
     create_queue example_env [camA; camB] (Some []) fresh_world =
     (Ok queue, probed_all [camA; camB] fresh_world)).
Proof.
  split; [discriminate|].
  apply (empty_offsets_probe example_env 4 1 [camA; camB] None fresh_world).
  discriminate.
Defined.

(** ** Releasing the queue *)

(* The wait ends only on a clock reading that has reached the delay. *)
Lemma busy_wait_deadline env fuel begin delay w w' :
  busy_wait env fuel begin delay w = (Ok tt, w') ->
  reads w < reads w' /\
  (delay <= clock env (reads w' - 1) - begin)%Q /\
  probes w' = probes w /\ started w' = started w /\ polls w' = polls w.
Proof.
  revert w. induction fuel as [|fuel IH]; intros w; simpl; [discriminate|].
  unfold bind, time.
  destruct (Qlt_bool (clock env (reads w) - begin) delay) eqn:E.
  - intros H. apply IH in H. simpl in H.
    destruct H as (H1 & H2 & H3 & H4 & H5). repeat split; try assumption. lia.
  - intros [= <-]. simpl. rewrite Nat.sub_0_r.
    apply Qlt_bool_false in E. repeat split; try assumption. lia.
Qed.

(* It does end, once the clock gets there within the fuel. *)
Lemma busy_wait_returns env fuel begin delay w k :
  k < fuel ->
  (delay <= clock env (reads w + k) - begin)%Q ->
  exists w', busy_wait env fuel begin delay w = (Ok tt, w').
Proof.
  revert w k. induction fuel as [|fuel IH]; intros w k Hk Hd; [lia|].
  simpl. unfold bind, time.
  destruct (Qlt_bool (clock env (reads w) - begin) delay) eqn:E.
  - destruct k as [|k].
    + rewrite Nat.add_0_r in Hd. apply Qlt_bool_iff in E.
      exfalso. exact (Qlt_not_le _ _ E Hd).
    + apply (IH _ k); [lia|]. simpl. now rewrite <- Nat.add_succ_r.
  - now eexists.
Qed.

(* With [get_filename] bound, what [release] returns follows the queue. *)
Lemma release_repaired_order env fuel begin queue audio threads w threads' w' :
  release env (repaired_globals env) fuel begin queue audio threads w =
  (Ok threads', w') ->
  exists new,
    threads' = threads ++ new /\
    map t_input new = map fst queue /\
    started w' = rev new ++ started w.
Proof.
  revert threads w. induction queue as [|[n d] queue IH]; intros threads w; simpl.
  - intros [= <- <-]. exists []. now rewrite app_nil_r.
  - unfold bind at 1.
    destruct (busy_wait env fuel begin d w) as [[[]|e|] w1] eqn:Hb; try discriminate.
    apply busy_wait_deadline in Hb. destruct Hb as (_ & _ & _ & Hs & _).
    unfold bind at 1, create_thread, call_global. simpl lookup_global.
    unfold bind at 1, make_filename.
    destruct (re_search ip_pattern n) as [ip|]; [|discriminate].
    simpl. intros H. apply IH in H. destruct H as (new & -> & Hm & Hst).
    eexists (_ :: new). split; [now rewrite <- app_assoc|]. split.
    + simpl. now rewrite Hm.
    + rewrite Hst. simpl. rewrite Hs, <- app_assoc. reflexivity.
Qed.

Lemma start_queue_repaired_order env fuel queue audio w threads w' :
  start_queue env (repaired_globals env) fuel queue audio w = (Ok threads, w') ->
  map t_input threads = map fst queue /\
  started w' = rev threads ++ started w.
Proof.
  unfold start_queue, bind at 1, time. intros H.
  apply release_repaired_order in H. destruct H as (new & -> & Hm & Hs).
  now split.
Qed.

(* With [get_filename] bound, every entry is released after a clock
   reading that had reached its delay, and later entries are released at
   later readings. *)
Lemma release_repaired_timing env fuel begin queue audio threads w threads' w' :
  release env (repaired_globals env) fuel begin queue audio threads w =
  (Ok threads', w') ->
  exists new,
    threads' = threads ++ new /\
    Forall2 (fun e t =>
               t_input t = fst e /\
               exists r, reads w <= r < t_started_at t /\
                         (snd e <= clock env r - begin)%Q) queue new /\
    StronglySorted (fun t1 t2 => t_started_at t1 < t_started_at t2) new /\
    reads w <= reads w'.
Proof.
  revert threads w. induction queue as [|[n d] queue IH]; intros threads w; simpl.
  - intros [= <- <-]. exists []. rewrite app_nil_r.
    repeat split; constructor.
  - unfold bind at 1.
    destruct (busy_wait env fuel begin d w) as [[[]|e|] w1] eqn:Hb; try discriminate.
    apply busy_wait_deadline in Hb. destruct Hb as (Hr & Hd & _).
    unfold bind at 1, create_thread, call_global. simpl lookup_global.
    unfold bind at 1, make_filename.
    destruct (re_search ip_pattern n) as [ip|]; [|discriminate].
    simpl. intros H. apply IH in H. simpl in H.
    destruct H as (new & -> & Hf & Hs & Hle).
    eexists (_ :: new). split; [now rewrite <- app_assoc|].
    split; [|split].
    + constructor.
      * simpl. split; [reflexivity|]. exists (reads w1 - 1). split; [lia|exact Hd].
      * eapply Forall2_impl; [|exact Hf].
        intros a b (Ha & r & Hr' & Hq). split; [exact Ha|].
        exists r. split; [lia|exact Hq].
    + constructor; [exact Hs|]. simpl.
      clear - Hf. induction Hf as [|a b l l' (_ & r & Hr & _) _ IHf];
        constructor; [lia|exact IHf].
    + lia.
Qed.

(** C7: as written, [start_queue] launches nothing.  For every queue with
    at least one entry it waits for the first entry's delay and then
    raises [NameError] from [create_thread] (the defect of C3), unless the
    clock never reaches the delay; no thread is started and no list of
    threads is returned.  On the delays 0, 0.5 and 1.2 of the
    specification the run ends after two clock readings. *)
Theorem start_queue_launches_nothing (env : Env) (fuel : nat)
    (stream_name : string) (delay : Q) (queue : list entry)
    (audio_stream_name : option string) (w : world) :
  (exists w',
     (start_queue env (module_globals env) fuel ((stream_name, delay) :: queue)
        audio_stream_name w = (Raise (NameError "get_filename"), w') \/
      start_queue env (module_globals env) fuel ((stream_name, delay) :: queue)
        audio_stream_name w = (OutOfFuel, w')) /\
     started w' = started w) /\
  start_queue example_env (module_globals example_env) 8
    [(camB, 0%Q); (camA, (1 # 2)%Q); (camC, (6 # 5)%Q)] None fresh_world =
  (Raise (NameError "get_filename"), at_reading 2).
Proof.
  split; [|reflexivity].
  destruct (start_queue_module_globals env fuel stream_name delay queue
              audio_stream_name w) as (w' & H & Hs & _).
  exists w'. now split.
Qed.

(* With the name bound, the same queue is released in order. *)
Example start_queue_repaired_run :
  exists t0 t1 t2 w',
    start_queue example_env (repaired_globals example_env) 8
      [(camB, 0%Q); (camA, (1 # 2)%Q); (camC, (6 # 5)%Q)] None fresh_world =
    (Ok [t0; t1; t2], w') /\
    map t_input [t0; t1; t2] = [camB; camA; camC] /\
    started w' = [t2; t1; t0].
Proof. do 4 eexists. split; [vm_compute; reflexivity|]. split; reflexivity. Qed.

(** ** The supervisor loop *)

(* A dead thread at position [k] is replaced by a recording of the [k]-th
   name of the input list. *)
Lemma poll_dead_step env g n k names audio threads thread name w :
  nth_error threads k = Some thread ->
  alive env (polls w) (tid thread) = false ->
  list_index thread threads = Some k ->
  nth_error names k = Some name ->
  poll env g (S n) k names audio threads w =
  (thread' <- create_thread g name audio ;;
   poll env g n (S k) names audio (list_set threads k thread'))
    (mkWorld (probes w) (reads w) (started w) (S (polls w))).
Proof.
  intros Ht Ha Hi Hn. simpl. rewrite Ht. unfold bind at 1, is_alive.
  now rewrite Ha, Hi, Hn.
Qed.

Lemma poll_alive_step env g n k names audio threads thread w :
  nth_error threads k = Some thread ->
  alive env (polls w) (tid thread) = true ->
  poll env g (S n) k names audio threads w =
  poll env g n (S k) names audio threads
    (mkWorld (probes w) (reads w) (started w) (S (polls w))).
Proof.
  intros Ht Ha. simpl. rewrite Ht. unfold bind at 1, is_alive.
  now rewrite Ha.
Qed.

(* While every thread is alive a pass starts nothing and leaves the list
   as it is. *)
Lemma poll_all_alive env g n k names audio threads w :
  (forall q t, alive env q t = true) ->
  exists w',
    poll env g n k names audio threads w = (Ok threads, w') /\
    started w' = started w.
Proof.
  intros Ha. revert k w. induction n as [|n IH]; intros k w; simpl.
  - now exists w.
  - destruct (nth_error threads k) as [thread|]; [|now exists w].
    unfold bind at 1, is_alive. rewrite Ha.
    destruct (IH (S k) (mkWorld (probes w) (reads w) (started w) (S (polls w))))
      as (w' & -> & Hs).
    now exists w'.
Qed.

(** C1: the restart does not follow the thread's source.  On sources
    camA, camB with offsets 3 and 1 the queue is camB, camA.  As written
    the run stops in [start_queue] with [NameError] (the defect of C3)
    and never polls.  With [get_filename] bound, thread 0 records camB;
    when the poll finds it dead, the replacement is started for
    [input_stream_names[0]], which is camA, and is stored at index 0:
    camB is no longer recorded and camA is recorded twice. *)
Theorem restart_records_wrong_source :
  main example_env (module_globals example_env) 8 1 [camA; camB] None
    (Some [3%Q; 1%Q]) fresh_world =
  (Raise (NameError "get_filename"), at_reading 2) /\
  create_queue example_env [camA; camB] (Some [3%Q; 1%Q]) fresh_world =
  (Ok [(camB, 0%Q); (camA, 2%Q)], fresh_world) /\
  exists t0 t1 t2 w1 w2,
    start_queue example_env (repaired_globals example_env) 8
      [(camB, 0%Q); (camA, 2%Q)] None fresh_world = (Ok [t0; t1], w1) /\
    t_input t0 = camB /\ t_input t1 = camA /\
    alive example_env (polls w1) (tid t0) = false /\
    poll example_env (repaired_globals example_env) 2 0 [camA; camB] None
      [t0; t1] w1 = (Ok [t2; t1], w2) /\
    t_input t2 = camA /\
    started w2 = t2 :: started w1.
Proof.
  split; [vm_compute; reflexivity|]. split; [vm_compute; reflexivity|].
  do 5 eexists. split; [vm_compute; reflexivity|].
  split; [reflexivity|]. split; [reflexivity|]. split; [reflexivity|].
  split; [vm_compute; reflexivity|]. split; reflexivity.
Qed.

(** ** File names *)

Lemma digit_char_inj a b : a < 10 -> b < 10 -> digit_char a = digit_char b -> a = b.
Proof.
  unfold digit_char. intros Ha Hb H.
  apply (f_equal nat_of_ascii) in H.
  rewrite !nat_ascii_embedding in H by lia. lia.
Qed.

Lemma fmt02_inj a b : a < 100 -> b < 100 -> fmt02 a = fmt02 b -> a = b.
Proof.
  unfold fmt02. intros Ha Hb H.
  assert (H1 : digit_char (a / 10) = digit_char (b / 10)) by congruence.
  assert (H2 : digit_char (a mod 10) = digit_char (b mod 10)) by congruence.
  clear H.
  apply digit_char_inj in H1;
    [|apply Nat.Div0.div_lt_upper_bound; lia|apply Nat.Div0.div_lt_upper_bound; lia].
  apply digit_char_inj in H2; [|apply Nat.mod_upper_bound; lia|apply Nat.mod_upper_bound; lia].
  rewrite (Nat.div_mod_eq a 10), (Nat.div_mod_eq b 10). now rewrite H1, H2.
Qed.

Lemma fmt04_split a b :
  fmt04 a = fmt04 b ->
  fmt02 (a / 100) = fmt02 (b / 100) /\ fmt02 (a mod 100) = fmt02 (b mod 100).
Proof.
  unfold fmt04.
  generalize (a / 100) (a mod 100) (b / 100) (b mod 100).
  intros x y x' y'. unfold fmt02.
  generalize (digit_char (x / 10)) (digit_char (x mod 10))
             (digit_char (y / 10)) (digit_char (y mod 10))
             (digit_char (x' / 10)) (digit_char (x' mod 10))
             (digit_char (y' / 10)) (digit_char (y' mod 10)).
  intros c1 c2 c3 c4 d1 d2 d3 d4. cbn [append].
  intros H. injection H as -> -> -> ->. now split.
Qed.

Lemma fmt04_inj a b : a < 10 * 1000 -> b < 10 * 1000 -> fmt04 a = fmt04 b -> a = b.
Proof.
  intros Ha Hb H. apply fmt04_split in H. destruct H as [H1 H2].
  apply fmt02_inj in H1;
    [|apply Nat.Div0.div_lt_upper_bound; lia|apply Nat.Div0.div_lt_upper_bound; lia].
  apply fmt02_inj in H2;
    [|apply Nat.mod_upper_bound; lia|apply Nat.mod_upper_bound; lia].
  rewrite (Nat.div_mod_eq a 100), (Nat.div_mod_eq b 100). now rewrite H1, H2.
Qed.

Lemma append_inv_head (p x y : string) : (p ++ x = p ++ y)%string -> x = y.
Proof.
  induction p as [|c p IH]; simpl; [trivial|].
  intros [= H]. now apply IH.
Qed.

Lemma strftime_same_second t1 t2 :
  same_second t1 t2 -> strftime t1 = strftime t2.
Proof.
  unfold same_second, strftime.
  intros (-> & -> & -> & -> & -> & ->). reflexivity.
Qed.

Lemma strftime_fields t1 t2 :
  (strftime t1 ++ ".mp4" = strftime t2 ++ ".mp4")%string ->
  fmt04 (year t1) = fmt04 (year t2) /\
  fmt02 (month t1) = fmt02 (month t2) /\
  fmt02 (day t1) = fmt02 (day t2) /\
  fmt02 (hour t1) = fmt02 (hour t2) /\
  fmt02 (minute t1) = fmt02 (minute t2) /\
  fmt02 (second t1) = fmt02 (second t2).
Proof.
  unfold strftime, fmt04, fmt02. cbn [append]. intros H.
  repeat split; congruence.
Qed.

Lemma strftime_inj t1 t2 :
  well_formed t1 -> well_formed t2 ->
  (strftime t1 ++ ".mp4" = strftime t2 ++ ".mp4")%string -> same_second t1 t2.
Proof.
  unfold well_formed, same_second.
  intros (Hy1 & Hm1 & Hd1 & Hh1 & Hn1 & Hs1)
         (Hy2 & Hm2 & Hd2 & Hh2 & Hn2 & Hs2) H.
  apply strftime_fields in H. destruct H as (Y & M' & D & H & N & S').
  repeat split;
    (apply fmt04_inj; [lia|lia|assumption]) ||
    (apply fmt02_inj; [lia|lia|assumption]).
Qed.

Lemma make_filename_eq env stream_name ip w :
  re_search ip_pattern stream_name = Some ip ->
  make_filename env stream_name w =
  (Ok (ip ++ "_" ++ strftime (now env (reads w)) ++ ".mp4")%string,
   mkWorld (probes w) (S (reads w)) (started w) (polls w)).
Proof. intros H. unfold make_filename. now rewrite H. Qed.

(** C8, as amended: the file name is unique per source at one-second
    resolution.  For every source, the names two calls of [make_filename]
    return are equal exactly when the two timestamps agree in year, month,
    day, hour, minute and second; the microseconds play no part.  (A name
    is returned whenever an address is found in the source.) *)
Theorem make_filename_second_resolution (env : Env) (stream_name : string)
    (w1 w2 : world) :
  well_formed (now env (reads w1)) ->
  well_formed (now env (reads w2)) ->
  (re_search ip_pattern stream_name <> None ->
   exists name1 name2,
     fst (make_filename env stream_name w1) = Ok name1 /\
     fst (make_filename env stream_name w2) = Ok name2) /\
  (forall name1 name2,
     fst (make_filename env stream_name w1) = Ok name1 ->
     fst (make_filename env stream_name w2) = Ok name2 ->
     (name1 = name2 <-> same_second (now env (reads w1)) (now env (reads w2)))).
Proof.
  intros H1 H2.
  destruct (re_search ip_pattern stream_name) as [ip|] eqn:E.
  - rewrite !(make_filename_eq _ _ _ _ E). cbn [fst]. split.
    + intros _. now do 2 eexists.
    + intros name1 name2 E1 E2.
      assert (N1 : name1 =
                (ip ++ "_" ++ strftime (now env (reads w1)) ++ ".mp4")%string)
        by congruence.
      assert (N2 : name2 =
                (ip ++ "_" ++ strftime (now env (reads w2)) ++ ".mp4")%string)
        by congruence.
      subst name1 name2. clear E1 E2. split.
      * intros H. apply append_inv_head in H. apply (append_inv_head "_") in H.
        now apply strftime_inj.
      * intros H. now rewrite (strftime_same_second _ _ H).
  - split; [congruence|].
    unfold make_filename. rewrite E. discriminate.
Qed.

Lemma make_filename_second_resolution_witness :
  well_formed (now example_env (reads (at_reading 0))) /\
  well_formed (now example_env (reads (at_reading 8))) /\
  (re_search ip_pattern camA <> None ->
   exists name1 name2,
     fst (make_filename example_env camA (at_reading 0)) = Ok name1 /\
     fst (make_filename example_env camA (at_reading 8)) = Ok name2) /\
  (forall name1 name2,
     fst (make_filename example_env camA (at_reading 0)) = Ok name1 ->
     fst (make_filename example_env camA (at_reading 8)) = Ok name2 ->
     (name1 = name2 <->
      same_second (now example_env (reads (at_reading 0)))
                  (now example_env (reads (at_reading 8))))).
Proof.
  assert (Hw : forall k, k <= 8 ->
                well_formed (now example_env (reads (at_reading k)))).
  { intros k Hk. unfold well_formed, example_env, at_reading.
    cbn [now reads year month day hour minute second].
    assert (k / 8 < 60) by (apply Nat.Div0.div_lt_upper_bound; lia).
    repeat split; lia. }
  split; [apply Hw; lia|]. split; [apply Hw; lia|].
  apply (make_filename_second_resolution example_env camA
           (at_reading 0) (at_reading 8)); apply Hw; lia.
Defined.

(* One second apart the names differ. *)
Example make_filename_next_second :
  fst (make_filename example_env camA (at_reading 8)) =
  Ok "10.0.0.1_2024-05-17_09-30-01.mp4".
Proof. reflexivity. Qed.

(** C8, as stated, fails: two calls for the same source, half a
    millisecond apart, are given the same file name. *)
Lemma same_second_filenames_collide :
  now example_env 0 = mkDatetime 2024 5 17 9 30 0 0 /\
  now example_env 4 = mkDatetime 2024 5 17 9 30 0 500 /\
  now example_env 0 <> now example_env 4 /\
  fst (make_filename example_env camA (at_reading 0)) =
  Ok "10.0.0.1_2024-05-17_09-30-00.mp4" /\
  fst (make_filename example_env camA (at_reading 4)) =
  Ok "10.0.0.1_2024-05-17_09-30-00.mp4".
Proof.
  repeat split; try reflexivity. discriminate.
Qed.

(** * Further properties *)

(** ** The offset prober, [get_stream_delay] *)

Lemma next_video_first pre v post :
  Forall (fun stream => is_video stream = inr false) pre ->
  is_video v = inr true ->
  next_video (pre ++ v :: post) = inr v.
Proof.
  intros Hpre Hv. induction Hpre as [|s pre Hs _ IH]; simpl.
  - now rewrite Hv.
  - now rewrite Hs.
Qed.

Lemma next_video_first_error pre bad post e :
  Forall (fun stream => is_video stream = inr false) pre ->
  is_video bad = inl e ->
  next_video (pre ++ bad :: post) = inl e.
Proof.
  intros Hpre Hb. induction Hpre as [|s pre Hs _ IH]; simpl.
  - now rewrite Hb.
  - now rewrite Hs.
Qed.

Lemma is_video_dict fields :
  dict_get "codec_type" fields = Some (JStr "video") ->
  is_video (JDict fields) = inr true.
Proof. intros H. simpl. now rewrite H. Qed.

(** X1: [get_stream_delay] returns the [start_time] of the first video
    stream the probe lists.  Streams of other types before it are skipped
    and whatever follows it -- further video streams included -- is never
    looked at.  One probe is made and nothing else is touched. *)
Theorem get_stream_delay_first_video (env : Env) (stream_name : string)
    (w : world) (fields : list (string * json)) (pre post : list json)
    (vfields : list (string * json)) (start_time : json) (q : Q) :
  ffprobe env stream_name = Some (JDict fields) ->
  dict_get "streams" fields = Some (JList (pre ++ JDict vfields :: post)) ->
  Forall (fun stream => is_video stream = inr false) pre ->
  dict_get "codec_type" vfields = Some (JStr "video") ->
  dict_get "start_time" vfields = Some start_time ->
  py_float env start_time = inr q ->
  get_stream_delay env stream_name w = (Ok q, probed stream_name w).
Proof.
  intros Hp Hs Hpre Hv Hst Hq.
  rewrite get_stream_delay_eq. unfold delay_of_probe. rewrite Hp.
  cbn [subscript]. rewrite Hs. cbn [py_iter].
  rewrite (next_video_first _ _ _ Hpre (is_video_dict _ Hv)).
  cbn [subscript]. now rewrite Hst, Hq.
Qed.

Lemma get_stream_delay_first_video_witness :
  ffprobe example_env camA =
    Some (JDict [("streams",
                  JList ([JDict [("codec_type", JStr "audio");
                                 ("start_time", JStr "0.000000")]] ++
                         JDict [("codec_type", JStr "video");
                                ("start_time", JStr "3.000000")] :: []))]) /\
  dict_get "streams"
    [("streams",
      JList ([JDict [("codec_type", JStr "audio"); ("start_time", JStr "0.000000")]] ++
             JDict [("codec_type", JStr "video"); ("start_time", JStr "3.000000")] :: []))] =
    Some (JList ([JDict [("codec_type", JStr "audio"); ("start_time", JStr "0.000000")]] ++
                 JDict [("codec_type", JStr "video"); ("start_time", JStr "3.000000")] :: [])) /\
  Forall (fun stream => is_video stream = inr false)
    [JDict [("codec_type", JStr "audio"); ("start_time", JStr "0.000000")]] /\
  dict_get "codec_type" [("codec_type", JStr "video"); ("start_time", JStr "3.000000")] =
    Some (JStr "video") /\
  dict_get "start_time" [("codec_type", JStr "video"); ("start_time", JStr "3.000000")] =
    Some (JStr "3.000000") /\
  py_float example_env (JStr "3.000000") = inr 3%Q /\
  get_stream_delay example_env camA fresh_world = (Ok 3%Q, probed camA fresh_world).
Proof.
  assert (Hpre : Forall (fun stream => is_video stream = inr false)
            [JDict [("codec_type", JStr "audio"); ("start_time", JStr "0.000000")]])
    by (constructor; [reflexivity|constructor]).
  repeat (split; [first [reflexivity | exact Hpre]|]).
  exact (get_stream_delay_first_video example_env camA fresh_world
           [("streams",
             JList ([JDict [("codec_type", JStr "audio");
                            ("start_time", JStr "0.000000")]] ++
                    JDict [("codec_type", JStr "video");
                           ("start_time", JStr "3.000000")] :: []))]
           [JDict [("codec_type", JStr "audio"); ("start_time", JStr "0.000000")]]
           []
           [("codec_type", JStr "video"); ("start_time", JStr "3.000000")]
           (JStr "3.000000") 3%Q
           eq_refl eq_refl Hpre eq_refl eq_refl eq_refl).
Defined.

(* Two video streams: the second one's start time is not used. *)
Example get_stream_delay_two_videos :
  get_stream_delay
    (probe_env (Some (JDict [("streams",
       JList [JDict [("codec_type", JStr "video"); ("start_time", JStr "1.000000")];
              JDict [("codec_type", JStr "video"); ("start_time", JStr "3.000000")]])])))
    camA fresh_world = (Ok 1%Q, probed camA fresh_world).
Proof. reflexivity. Qed.

Lemma subscript_error v key e :
  subscript v key = inl e -> e = KeyError key \/ e = TypeError.
Proof.
  destruct v; simpl; try (intros [= <-]; now right).
  destruct (dict_get key fields); [discriminate|]. intros [= <-]. now left.
Qed.

Lemma is_video_error stream e :
  is_video stream = inl e -> e = KeyError "codec_type" \/ e = TypeError.
Proof.
  destruct stream; simpl; try (intros [= <-]; now right).
  destruct (dict_get "codec_type" fields) as [[| | | | |]|]; try discriminate.
  intros [= <-]. now left.
Qed.

Lemma next_video_error items e :
  next_video items = inl e ->
  e = StopIteration \/ e = KeyError "codec_type" \/ e = TypeError.
Proof.
  induction items as [|stream rest IH]; simpl.
  - intros [= <-]. now left.
  - destruct (is_video stream) as [e'|[|]] eqn:E; try discriminate.
    + intros [= <-]. right. now apply is_video_error in E.
    + exact IH.
Qed.

Lemma py_float_error env v e :
  py_float env v = inl e -> e = TypeError \/ exists s, e = float_error s.
Proof.
  destruct v; simpl; try discriminate; try (intros [= <-]; now left).
  destruct (parse_float env s); [discriminate|].
  intros [= <-]. right. now exists s.
Qed.



(** X3: which probe answer gives which error.  An unreachable source
    gives the error of [ffmpeg.probe]; an answer without "streams" gives
    [KeyError("streams")]; a stream without "codec_type" listed before any
    video stream gives [KeyError("codec_type")] even when a video stream
    follows; a first video stream without "start_time" gives
    [KeyError("start_time")]; and a "start_time" string that is no number
    gives the [ValueError] of [float]. *)
Theorem get_stream_delay_error_cases (env : Env) (stream_name : string) (w : world) :
  (ffprobe env stream_name = None ->
   get_stream_delay env stream_name w = (Raise FFmpegError, probed stream_name w)) /\
  (forall fields,
     ffprobe env stream_name = Some (JDict fields) ->
     dict_get "streams" fields = None ->
     get_stream_delay env stream_name w =
     (Raise (KeyError "streams"), probed stream_name w)) /\
  (forall fields pre bad post,
     ffprobe env stream_name = Some (JDict fields) ->
     dict_get "streams" fields = Some (JList (pre ++ JDict bad :: post)) ->
     Forall (fun stream => is_video stream = inr false) pre ->
     dict_get "codec_type" bad = None ->
     get_stream_delay env stream_name w =
     (Raise (KeyError "codec_type"), probed stream_name w)) /\
  (forall fields pre vfields post,
     ffprobe env stream_name = Some (JDict fields) ->
     dict_get "streams" fields = Some (JList (pre ++ JDict vfields :: post)) ->
     Forall (fun stream => is_video stream = inr false) pre ->
     dict_get "codec_type" vfields = Some (JStr "video") ->
     dict_get "start_time" vfields = None ->
     get_stream_delay env stream_name w =
     (Raise (KeyError "start_time"), probed stream_name w)) /\
  (forall fields pre vfields post s,
     ffprobe env stream_name = Some (JDict fields) ->
     dict_get "streams" fields = Some (JList (pre ++ JDict vfields :: post)) ->
     Forall (fun stream => is_video stream = inr false) pre ->
     dict_get "codec_type" vfields = Some (JStr "video") ->
     dict_get "start_time" vfields = Some (JStr s) ->
     parse_float env s = None ->
     get_stream_delay env stream_name w =
     (Raise (float_error s), probed stream_name w)).
Proof.
  repeat split.
  - intros Hp. rewrite get_stream_delay_eq. unfold delay_of_probe. now rewrite Hp.
  - intros fields Hp Hs. rewrite get_stream_delay_eq. unfold delay_of_probe.
    rewrite Hp. cbn [subscript]. now rewrite Hs.
  - intros fields pre bad post Hp Hs Hpre Hb.
    rewrite get_stream_delay_eq. unfold delay_of_probe.
    rewrite Hp. cbn [subscript]. rewrite Hs. cbn [py_iter].
    rewrite (next_video_first_error pre (JDict bad) post (KeyError "codec_type"));
      [reflexivity|assumption|].
    simpl. now rewrite Hb.
  - intros fields pre vfields post Hp Hs Hpre Hv Hst.
    rewrite get_stream_delay_eq. unfold delay_of_probe.
    rewrite Hp. cbn [subscript]. rewrite Hs. cbn [py_iter].
    rewrite (next_video_first _ _ _ Hpre (is_video_dict _ Hv)).
    cbn [subscript]. now rewrite Hst.
  - intros fields pre vfields post s Hp Hs Hpre Hv Hst Hf.
    rewrite get_stream_delay_eq. unfold delay_of_probe.
    rewrite Hp. cbn [subscript]. rewrite Hs. cbn [py_iter].
    rewrite (next_video_first _ _ _ Hpre (is_video_dict _ Hv)).
    cbn [subscript]. rewrite Hst. cbn [py_float]. now rewrite Hf.
Qed.

(* ffprobe prints "N/A" for a start time it does not know. *)
Example get_stream_delay_not_available :
  get_stream_delay
    (probe_env (Some (JDict [("streams",
       JList [JDict [("codec_type", JStr "video"); ("start_time", JStr "N/A")]])])))
    camA fresh_world = (Raise (float_error "N/A"), probed camA fresh_world).
Proof. reflexivity. Qed.

(* A data stream without codec type hides the video stream after it. *)
Example get_stream_delay_hidden_video :
  get_stream_delay
    (probe_env (Some (JDict [("streams",
       JList [JDict [("index", JNum 0)];
              JDict [("codec_type", JStr "video"); ("start_time", JStr "1.000000")]])])))
    camA fresh_world = (Raise (KeyError "codec_type"), probed camA fresh_world).
Proof. reflexivity. Qed.

(** ** The queue builder, [create_queue] *)

Lemma create_queue_given env names ds w :
  ds <> [] ->
  create_queue env names (Some ds) w = normalize (combine names ds) w.
Proof.
  intros Hne. unfold create_queue.
  destruct ds as [|d ds]; [congruence|]. reflexivity.
Qed.

Lemma map_fst_combine (names : list string) (ds : list Q) :
  map fst (combine names ds) = firstn (List.length ds) names.
Proof.
  revert ds. induction names as [|n names IH]; intros [|d ds]; simpl;
    try reflexivity.
  now rewrite IH.
Qed.

(** X4: with no sources there is no queue.  [create_queue] on an empty
    source list raises the [ValueError] of [min] on an empty sequence,
    whatever the offsets, without probing anything; [main] then fails with
    the configuration error when offsets were supplied and with that
    [ValueError] otherwise, before the clock is read or a thread
    started. *)
Theorem create_queue_no_sources (env : Env) (g : globals) (fuel passes : nat)
    (audio_stream_name : option string) (delays : option (list Q)) (w : world) :
  create_queue env [] delays w =
  (Raise (ValueError "min() arg is an empty sequence"), w) /\
  main env g fuel passes [] audio_stream_name delays w =
  (Raise (if delays_given delays then config_error
          else ValueError "min() arg is an empty sequence"), w).
Proof.
  split.
  - destruct delays as [[|d ds]|]; reflexivity.
  - destruct delays as [[|d ds]|]; reflexivity.
Qed.

(** X5: [create_queue] pairs sources and offsets with [zip].  Called with
    offsets of another length than the sources (the check is in [main]),
    it raises nothing: the queue holds the first [len(delays)] sources,
    at most all of them, and the sources or offsets beyond the shorter
    list are dropped. *)
Theorem create_queue_truncates (env : Env) (input_stream_names : list string)
    (delays : list Q) (w : world) :
  input_stream_names <> [] ->
  delays <> [] ->
  exists queue,
    create_queue env input_stream_names (Some delays) w = (Ok queue, w) /\
    List.length queue =
      Nat.min (List.length input_stream_names) (List.length delays) /\
    Permutation (map fst queue)
      (firstn (List.length delays) input_stream_names).
Proof.
  intros Hn Hd.
  assert (Hc : combine input_stream_names delays <> []).
  { destruct input_stream_names; [congruence|].
    destruct delays; [congruence|]. discriminate. }
  destruct (normalize_spec _ w Hc) as (m & _ & _ & Hrun).
  eexists. split; [rewrite create_queue_given by assumption; exact Hrun|].
  split.
  - rewrite length_map, (Permutation_length (list_sort_perm _)).
    apply length_combine.
  - rewrite map_fst_shift, <- map_fst_combine.
    apply Permutation_map, list_sort_perm.
Qed.

Lemma create_queue_truncates_witness :
  [camA; camB; camC] <> [] /\
  [5%Q; 2%Q] <> [] /\
  exists queue,
    create_queue example_env [camA; camB; camC] (Some [5%Q; 2%Q]) fresh_world =
    (Ok queue, fresh_world) /\
    List.length queue = Nat.min (List.length [camA; camB; camC]) (List.length [5%Q; 2%Q]) /\
    Permutation (map fst queue) (firstn (List.length [5%Q; 2%Q]) [camA; camB; camC]).
Proof.
  split; [discriminate|]. split; [discriminate|].
  apply (create_queue_truncates example_env [camA; camB; camC] [5%Q; 2%Q] fresh_world);
    discriminate.
Defined.

Example create_queue_drops_last_source :
  create_queue example_env [camA; camB; camC] (Some [5%Q; 2%Q]) fresh_world =
  (Ok [(camB, 0%Q); (camA, 3%Q)], fresh_world).
Proof. reflexivity. Qed.












Example create_queue_epoch_offsets :
  create_queue example_env [camA; camB] (Some [(1700000003 # 1)%Q; (1700000001 # 1)%Q])
    fresh_world =
  create_queue example_env [camA; camB] (Some [3%Q; 1%Q]) fresh_world.
Proof. vm_compute. reflexivity. Qed.





Lemma create_queue_ok_shape env names delays w queue w' :
  create_queue env names delays w = (Ok queue, w') ->
  exists pairs m,
    In m pairs /\
    (forall y, In y pairs -> (snd m <= snd y)%Q) /\
    queue = map (shift (snd m)) (list_sort pairs).
Proof.
  unfold create_queue, bind.
  destruct ((if delays_given delays
             then ret (combine names (delays_list delays))
             else probe_all env names []) w) as [[pairs|e|] w1]; try discriminate.
  unfold normalize. rewrite bind_lift.
  destruct (list_sort pairs) as [|x rest] eqn:E; [discriminate|].
  cbn [py_min]. intros [= <- _].
  destruct (min_from_spec x rest) as [Hin Hle]. rewrite <- E in Hin, Hle.
  exists pairs, (min_from x rest). split; [|split].
  - now apply (Permutation_in _ (list_sort_perm pairs)).
  - intros y Hy. apply Hle.
    now apply (Permutation_in _ (Permutation_sym (list_sort_perm pairs))).
  - rewrite E. reflexivity.
Qed.




(** ** The file name, [make_filename] *)



































(** ** The release scheduler, [start_queue] *)

(** X13: the wait of [start_queue] ends at the first clock reading that
    has reached the delay.  If the readings taken so far are followed by
    [k] readings below [begin + delay] and then one at or above it, the
    wait returns after exactly [k + 1] readings and touches nothing but
    the clock. *)
Theorem busy_wait_first_reading (env : Env) (fuel : nat) (begin delay : Q)
    (w : world) (k : nat) :
  k < fuel ->
  (forall j, j < k -> (clock env (reads w + j) - begin < delay)%Q) ->
  (delay <= clock env (reads w + k) - begin)%Q ->
  busy_wait env fuel begin delay w =
  (Ok tt, mkWorld (probes w) (reads w + S k) (started w) (polls w)).
Proof.
  revert fuel w. induction k as [|k IH]; intros fuel w Hk Hlow Hhit;
    (destruct fuel as [|fuel]; [lia|]); cbn [busy_wait]; unfold bind, time.
  - rewrite Nat.add_0_r in Hhit. apply Qlt_bool_false in Hhit. rewrite Hhit.
    unfold ret. now rewrite Nat.add_1_r.
  - assert (H0 : Qlt_bool (clock env (reads w) - begin) delay = true).
    { apply Qlt_bool_iff. rewrite <- (Nat.add_0_r (reads w)). apply Hlow. lia. }
    rewrite H0.
    rewrite (IH fuel (mkWorld (probes w) (S (reads w)) (started w) (polls w)));
      cbn [reads probes started polls].
    + do 2 f_equal. lia.
    + lia.
    + intros j Hj. replace (S (reads w) + j) with (reads w + S j) by lia.
      apply Hlow. lia.
    + now replace (S (reads w) + k) with (reads w + S k) by lia.
Qed.

Lemma busy_wait_first_reading_witness :
  2 < 8 /\
  (forall j, j < 2 ->
     (clock example_env (reads (at_reading 1) + j) - 0 < 6 # 5)%Q) /\
  (6 # 5 <= clock example_env (reads (at_reading 1) + 2) - 0)%Q /\
  busy_wait example_env 8 0%Q (6 # 5)%Q (at_reading 1) =
  (Ok tt, mkWorld (probes (at_reading 1)) (reads (at_reading 1) + 3)
            (started (at_reading 1)) (polls (at_reading 1))).
Proof.
  assert (Hlow : forall j, j < 2 ->
            (clock example_env (reads (at_reading 1) + j) - 0 < 6 # 5)%Q).
  { intros j Hj. destruct j as [|[|j]]; [reflexivity|reflexivity|lia]. }
  assert (Hhit : (6 # 5 <= clock example_env (reads (at_reading 1) + 2) - 0)%Q)
    by discriminate.
  split; [lia|]. split; [exact Hlow|]. split; [exact Hhit|].
  apply (busy_wait_first_reading example_env 8 0%Q (6 # 5)%Q (at_reading 1) 2);
    [lia|exact Hlow|exact Hhit].
Defined.

Lemma create_thread_bound env g name audio w ip :
  get_filename_bound env g ->
  re_search ip_pattern name = Some ip ->
  create_thread g name audio w =
  (Ok (mkThread (List.length (started w)) name audio
         (ip ++ "_" ++ strftime (now env (reads w)) ++ ".mp4")%string
         (record_video name audio
            (ip ++ "_" ++ strftime (now env (reads w)) ++ ".mp4")%string)
         (S (reads w))),
   mkWorld (probes w) (S (reads w))
     (mkThread (List.length (started w)) name audio
        (ip ++ "_" ++ strftime (now env (reads w)) ++ ".mp4")%string
        (record_video name audio
           (ip ++ "_" ++ strftime (now env (reads w)) ++ ".mp4")%string)
        (S (reads w)) :: started w)
     (polls w)).
Proof.
  intros Hg Hip. unfold create_thread, call_global. rewrite Hg.
  rewrite (bind_ok _ _ _ _ _ (make_filename_eq env name ip w Hip)).
  reflexivity.
Qed.

Lemma release_bound env g fuel begin queue audio :
  get_filename_bound env g ->
  Forall (fun e => has_address (fst e)) queue ->
  (forall r d, In d (map snd queue) ->
     exists k, k < fuel /\ (d <= clock env (r + k) - begin)%Q) ->
  forall threads w,
  exists new w',
    release env g fuel begin queue audio threads w = (Ok (threads ++ new), w') /\
    map t_input new = map fst queue /\
    started w' = rev new ++ started w /\
    reads w <= reads w' /\
    Forall2 (fun e t =>
               exists r, reads w <= r < t_started_at t /\
                         (snd e <= clock env r - begin)%Q) queue new /\
    StronglySorted (fun t1 t2 => t_started_at t1 < t_started_at t2) new.
Proof.
  intros Hg Haddr Hclock.
  induction queue as [|[n d] queue IH]; intros threads w.
  - exists [], w. rewrite app_nil_r. repeat split; constructor.
  - inversion Haddr as [|? ? Hn Hrest]; subst.
    destruct (Hclock (reads w) d (or_introl eq_refl)) as (k & Hk & Hd).
    destruct (busy_wait_returns env fuel begin d w k Hk Hd) as (w1 & Hb).
    destruct (busy_wait_deadline _ _ _ _ _ _ Hb) as (Hr1 & Hd1 & Hp1 & Hs1 & Hq1).
    unfold has_address in Hn. cbn [fst] in Hn.
    destruct (re_search ip_pattern n) as [ip|] eqn:Hip; [|congruence].
    cbn [release]. rewrite (bind_ok _ _ _ _ _ Hb).
    rewrite (bind_ok _ _ _ _ _ (create_thread_bound env g n audio w1 ip Hg Hip)).
    match goal with
    | |- context [release env g fuel begin queue audio (threads ++ [?t]) ?w2] =>
        destruct (IH Hrest (fun r d' Hd' => Hclock r d' (or_intror Hd'))
                    (threads ++ [t]) w2)
          as (new & w' & Hrun & Hm & Hst & Hrd & Hf & Hso);
        exists (t :: new), w'
    end.
    cbn [reads started] in *.
    split; [rewrite Hrun, <- app_assoc; reflexivity|].
    split; [cbn; now rewrite Hm|].
    split; [rewrite Hst; cbn; rewrite <- app_assoc, Hs1; reflexivity|].
    split; [lia|]. split.
    + constructor.
      * exists (reads w1 - 1). cbn. split; [lia|exact Hd1].
      * eapply Forall2_impl; [|exact Hf].
        intros a b (r & Hr & Hq). exists r. split; [lia|exact Hq].
    + constructor; [exact Hso|].
      clear - Hf. induction Hf as [|a b l l' (r & Hr & _) _ IHf];
        constructor; [cbn; lia|exact IHf].
Qed.

(** X14: the release order and times of [start_queue], in a name space
    where [get_filename] is bound to [make_filename].  If an address is
    found in every source of the queue and the clock gets past every delay
    within the fuel, [start_queue] returns one thread per entry, in queue
    order, each recording the source of its entry; each thread is started
    after a clock reading at which the time elapsed since the first
    reading had reached its delay, later entries strictly later; and the
    threads started are exactly the ones returned. *)
Theorem start_queue_releases_in_order (env : Env) (g : globals) (fuel : nat)
    (queue : list entry) (audio_stream_name : option string) (w : world) :
  get_filename_bound env g ->
  Forall (fun e => has_address (fst e)) queue ->
  (forall r d, In d (map snd queue) ->
     exists k, k < fuel /\ (d <= clock env (r + k) - clock env (reads w))%Q) ->
  exists threads w',
    start_queue env g fuel queue audio_stream_name w = (Ok threads, w') /\
    map t_input threads = map fst queue /\
    started w' = rev threads ++ started w /\
    Forall2 (fun e t =>
               exists r, reads w < r < t_started_at t /\
                         (snd e <= clock env r - clock env (reads w))%Q)
      queue threads /\
    StronglySorted (fun t1 t2 => t_started_at t1 < t_started_at t2) threads.
Proof.
  intros Hg Haddr Hclock.
  destruct (release_bound env g fuel (clock env (reads w)) queue audio_stream_name
              Hg Haddr Hclock []
              (mkWorld (probes w) (S (reads w)) (started w) (polls w)))
    as (new & w' & Hrun & Hm & Hst & _ & Hf & Hso).
  exists new, w'. cbn [reads started app] in *.
  split; [unfold start_queue, bind, time; exact Hrun|].
  split; [exact Hm|]. split; [exact Hst|]. split; [|exact Hso].
  eapply Forall2_impl; [|exact Hf].
  intros a b (r & Hr & Hq). exists r. split; [lia|exact Hq].
Qed.

Lemma example_clock_reaches r d :
  In d [0%Q; (1 # 2)%Q; (6 # 5)%Q] ->
  exists k, k < 8 /\
    (d <= clock example_env (r + k) - clock example_env (reads fresh_world))%Q.
Proof.
  intros Hd. exists 3. split; [lia|].
  apply Qle_trans with (6 # 5)%Q.
  - destruct Hd as [<-|[<-|[<-|[]]]]; discriminate.
  - unfold example_env, fresh_world. cbn [clock reads].
    unfold Qle, Qminus, Qplus, Qopp. cbn [Qnum Qden Z.of_nat]. lia.
Qed.

Lemma start_queue_releases_in_order_witness :
  get_filename_bound example_env (repaired_globals example_env) /\
  Forall (fun e => has_address (fst e))
    [(camB, 0%Q); (camA, (1 # 2)%Q); (camC, (6 # 5)%Q)] /\
  (forall r d,
     In d (map snd [(camB, 0%Q); (camA, (1 # 2)%Q); (camC, (6 # 5)%Q)]) ->
     exists k, k < 8 /\
       (d <= clock example_env (r + k) - clock example_env (reads fresh_world))%Q) /\
  exists threads w',
    start_queue example_env (repaired_globals example_env) 8
      [(camB, 0%Q); (camA, (1 # 2)%Q); (camC, (6 # 5)%Q)] None fresh_world =
    (Ok threads, w') /\
    map t_input threads =
      map fst [(camB, 0%Q); (camA, (1 # 2)%Q); (camC, (6 # 5)%Q)] /\
    started w' = rev threads ++ started fresh_world /\
    Forall2 (fun e t =>
               exists r, reads fresh_world < r < t_started_at t /\
                         (snd e <= clock example_env r -
                                   clock example_env (reads fresh_world))%Q)
      [(camB, 0%Q); (camA, (1 # 2)%Q); (camC, (6 # 5)%Q)] threads /\
    StronglySorted (fun t1 t2 => t_started_at t1 < t_started_at t2) threads.
Proof.
  assert (Hg : get_filename_bound example_env (repaired_globals example_env))
    by reflexivity.
  assert (Ha : Forall (fun e => has_address (fst e))
                 [(camB, 0%Q); (camA, (1 # 2)%Q); (camC, (6 # 5)%Q)]).
  { repeat constructor; unfold has_address; vm_compute; discriminate. }
  split; [exact Hg|]. split; [exact Ha|]. split; [exact example_clock_reaches|].
  exact (start_queue_releases_in_order example_env (repaired_globals example_env) 8
           [(camB, 0%Q); (camA, (1 # 2)%Q); (camC, (6 # 5)%Q)] None fresh_world
           Hg Ha example_clock_reaches).
Defined.

(** ** The run as a whole, [main] *)

Lemma delay_of_probe_not_exit env probe code :
  delay_of_probe env probe <> inl (SystemExit code).
Proof.
  unfold delay_of_probe.
  destruct probe as [p|]; [|discriminate].
  destruct (subscript p "streams") as [e|streams] eqn:E1.
  { intros [= ->]. destruct (subscript_error _ _ _ E1); discriminate. }
  destruct (py_iter streams) as [e|items] eqn:E2.
  { intros [= ->]. destruct streams; discriminate. }
  destruct (next_video items) as [e|v] eqn:E3.
  { intros [= ->]. destruct (next_video_error _ _ E3) as [H|[H|H]]; discriminate. }
  destruct (subscript v "start_time") as [e|st] eqn:E4.
  { intros [= ->]. destruct (subscript_error _ _ _ E4); discriminate. }
  intros H. destruct (py_float_error _ _ _ H) as [H'|[s H']]; discriminate.
Qed.

Lemma probe_all_not_exit env names queue w w' code :
  probe_all env names queue w <> (Raise (SystemExit code), w').
Proof.
  revert queue w. induction names as [|s rest IH]; intros queue w; simpl.
  - discriminate.
  - unfold bind. rewrite get_stream_delay_eq.
    destruct (delay_of_probe env (ffprobe env s)) as [e|q] eqn:E.
    + intros [= -> _]. exact (delay_of_probe_not_exit _ _ _ E).
    + apply IH.
Qed.

Lemma create_queue_not_exit env names delays w w' code :
  create_queue env names delays w <> (Raise (SystemExit code), w').
Proof.
  unfold create_queue, bind.
  destruct (delays_given delays).
  - unfold ret, normalize. rewrite bind_lift.
    destruct (py_min _) as [e|m] eqn:E; [|discriminate].
    intros [= -> _]. revert E. unfold py_min.
    destruct (list_sort _); discriminate.
  - destruct (probe_all env names [] w) as [[q|e|] w1] eqn:E.
    + unfold normalize. rewrite bind_lift.
      destruct (py_min _) as [e|m] eqn:E'; [|discriminate].
      intros [= -> _]. revert E'. unfold py_min.
      destruct (list_sort _); discriminate.
    + intros [= -> _]. exact (probe_all_not_exit _ _ _ _ _ _ E).
    + discriminate.
Qed.

Lemma create_queue_ok_nonempty env names delays w w' queue :
  create_queue env names delays w = (Ok queue, w') -> queue <> [].
Proof.
  intros H. apply create_queue_ok_shape in H.
  destruct H as (pairs & m & Hin & _ & ->). intros E. apply map_eq_nil in E.
  apply (Permutation_in _ (Permutation_sym (list_sort_perm pairs))) in Hin.
  rewrite E in Hin. exact Hin.
Qed.

(** X15: as it stands the script cannot end normally.  Whatever the
    sources, the offsets and the outside world, [main] neither returns nor
    reaches [sys.exit(0)]: it ends with the configuration error, an error
    of the queue builder, or the [NameError] of the first launch (or it is
    still waiting for the first delay). *)
Theorem main_never_exits (env : Env) (fuel passes : nat)
    (input_stream_names : list string) (audio_stream_name : option string)
    (delays : option (list Q)) (w : world) :
  (forall u, fst (main env (module_globals env) fuel passes input_stream_names
                    audio_stream_name delays w) <> Ok u) /\
  (forall code, fst (main env (module_globals env) fuel passes input_stream_names
                       audio_stream_name delays w) <> Raise (SystemExit code)) /\
  (fst (main env (module_globals env) fuel passes input_stream_names
          audio_stream_name delays w) = Raise config_error \/
   (exists e,
      fst (create_queue env input_stream_names delays w) = Raise e /\
      fst (main env (module_globals env) fuel passes input_stream_names
             audio_stream_name delays w) = Raise e) \/
   fst (main env (module_globals env) fuel passes input_stream_names
          audio_stream_name delays w) = Raise (NameError "get_filename") \/
   fst (main env (module_globals env) fuel passes input_stream_names
          audio_stream_name delays w) = OutOfFuel).
Proof.
  unfold main.
  destruct ((if delays_given delays
             then if negb (List.length input_stream_names =?
                           List.length (delays_list delays))
                  then raise config_error else ret tt
             else ret tt) w) as [[[]|e|] w0] eqn:Echeck.
  - assert (w0 = w).
    { revert Echeck. destruct (delays_given delays);
        [destruct (negb _)|]; unfold ret, raise; congruence. }
    subst w0. rewrite (bind_ok _ _ _ _ _ Echeck).
    destruct (create_queue env input_stream_names delays w) as [[q|e|] w1] eqn:Eq.
    + rewrite (bind_ok _ _ _ _ _ Eq).
      pose proof (create_queue_ok_nonempty _ _ _ _ _ _ Eq) as Hq.
      destruct q as [|[n d] q]; [congruence|].
      destruct (start_queue_module_globals env fuel n d q audio_stream_name w1)
        as (w' & [H | H] & _).
      * rewrite (bind_raise _ _ _ _ _ H). cbn [fst].
        split; [discriminate|]. split; [discriminate|].
        right; right; left; reflexivity.
      * rewrite (bind_spin _ _ _ _ H). cbn [fst].
        split; [discriminate|]. split; [discriminate|].
        do 3 right; reflexivity.
    + rewrite (bind_raise _ _ _ _ _ Eq). cbn [fst].
      split; [discriminate|]. split.
      * intros code [= ->]. exact (create_queue_not_exit _ _ _ _ _ _ Eq).
      * right; left. exists e. split; reflexivity.
    + rewrite (bind_spin _ _ _ _ Eq). cbn [fst].
      split; [discriminate|]. split; [discriminate|].
      do 3 right; reflexivity.
  - rewrite (bind_raise _ _ _ _ _ Echeck). cbn [fst].
    assert (e = config_error).
    { revert Echeck. destruct (delays_given delays);
        [destruct (negb _)|]; unfold ret, raise; congruence. }
    subst e. split; [discriminate|]. split; [discriminate|].
    left; reflexivity.
  - exfalso. revert Echeck. destruct (delays_given delays);
      [destruct (negb _)|]; unfold ret, raise; discriminate.
Qed.

(** ** The supervisor loop of [main] *)

Lemma world_eta w : mkWorld (probes w) (reads w) (started w) (polls w) = w.
Proof. now destruct w. Qed.

Lemma poll_all_alive_exact env g n k names audio threads w :
  (forall q t, alive env q t = true) ->
  poll env g n k names audio threads w =
  (Ok threads,
   mkWorld (probes w) (reads w) (started w)
     (polls w + Nat.min n (List.length threads - k))).
Proof.
  intros Ha. revert k w. induction n as [|n IH]; intros k w; cbn [poll].
  - unfold ret. now rewrite Nat.add_0_r, world_eta.
  - destruct (nth_error threads k) as [thread|] eqn:E.
    + unfold bind at 1, is_alive. rewrite Ha, IH. cbn [probes reads started polls].
      assert (Hk : k < List.length threads) by (apply nth_error_Some; congruence).
      do 2 f_equal. lia.
    + apply nth_error_None in E. unfold ret.
      replace (List.length threads - k) with 0 by lia.
      now rewrite Nat.min_0_r, Nat.add_0_r, world_eta.
Qed.

(** X16: a healthy run restarts nothing.  While every liveness query
    answers alive, any number of passes of the supervisor loop returns the
    thread list unchanged, starts no thread, reads no clock and makes
    exactly one liveness query per thread and pass -- in any name
    space. *)
Theorem supervise_all_alive (env : Env) (g : globals) (passes : nat)
    (input_stream_names : list string) (audio_stream_name : option string)
    (threads : list Thread) (w : world) :
  (forall q t, alive env q t = true) ->
  supervise env g passes input_stream_names audio_stream_name threads w =
  (Ok threads,
   mkWorld (probes w) (reads w) (started w)
     (polls w + passes * List.length threads)).
Proof.
  intros Ha. revert w. induction passes as [|passes IH]; intros w; cbn [supervise].
  - unfold ret. now rewrite Nat.add_0_r, world_eta.
  - erewrite bind_ok; [|now apply poll_all_alive_exact].
    rewrite IH. cbn [probes reads started polls]. do 2 f_equal.
    rewrite Nat.sub_0_r, Nat.min_id. cbn [Nat.mul]. lia.
Qed.

Lemma supervise_all_alive_witness :
  (forall q t, alive healthy_env q t = true) /\
  supervise healthy_env (module_globals healthy_env) 3 [camA; camB] None
    example_threads example_released =
  (Ok example_threads,
   mkWorld (probes example_released) (reads example_released)
     (started example_released)
     (polls example_released + 3 * List.length example_threads)).
Proof.
  split; [reflexivity|].
  apply (supervise_all_alive healthy_env (module_globals healthy_env) 3
           [camA; camB] None example_threads example_released).
  reflexivity.
Defined.

Lemma list_set_length {A} (l : list A) i x :
  List.length (list_set l i x) = List.length l.
Proof.
  revert i. induction l as [|y l IH]; intros [|i]; simpl; try reflexivity.
  now rewrite IH.
Qed.

Lemma poll_length env g n k names audio threads w threads' w' :
  poll env g n k names audio threads w = (Ok threads', w') ->
  List.length threads' = List.length threads.
Proof.
  revert k threads w. induction n as [|n IH]; intros k threads w; cbn [poll].
  - now intros [= <- _].
  - destruct (nth_error threads k) as [thread|]; [|now intros [= <- _]].
    unfold bind at 1, is_alive.
    destruct (alive env (polls w) (tid thread)); [apply IH|].
    destruct (list_index thread threads) as [ind|]; [|discriminate].
    destruct (nth_error names ind) as [name|]; [|discriminate].
    unfold bind at 1.
    destruct (create_thread g name audio _) as [[t'| |] w1]; try discriminate.
    intros H. apply IH in H. now rewrite list_set_length in H.
Qed.

(** X17: the thread list keeps its length.  Whatever the name space and
    whatever the threads do, a list returned by the supervisor loop after
    any number of passes has as many entries as the list it started
    from: a restart replaces an entry, it never adds or removes one. *)
Theorem supervise_keeps_length (env : Env) (g : globals) (passes : nat)
    (input_stream_names : list string) (audio_stream_name : option string)
    (threads threads' : list Thread) (w w' : world) :
  supervise env g passes input_stream_names audio_stream_name threads w =
  (Ok threads', w') ->
  List.length threads' = List.length threads.
Proof.
  revert threads w. induction passes as [|passes IH]; intros threads w;
    cbn [supervise].
  - now intros [= <- _].
  - unfold bind at 1.
    destruct (poll env g (List.length threads) 0 input_stream_names
                audio_stream_name threads w) as [[ts| |] w1] eqn:E;
      try discriminate.
    intros H. apply IH in H. apply poll_length in E. congruence.
Qed.

Lemma nth_error_middle {A} (l1 : list A) x l2 :
  nth_error (l1 ++ x :: l2) (List.length l1) = Some x.
Proof. induction l1 as [|a l1 IH]; simpl; [reflexivity|exact IH]. Qed.

Lemma list_set_middle {A} (l1 : list A) x l2 y :
  list_set (l1 ++ x :: l2) (List.length l1) y = l1 ++ y :: l2.
Proof. induction l1 as [|a l1 IH]; simpl; [reflexivity|now rewrite IH]. Qed.

Lemma list_index_middle done t rest :
  ~ In (tid t) (map tid done) ->
  list_index t (done ++ t :: rest) = Some (List.length done).
Proof.
  induction done as [|d done IH]; simpl; intros H.
  - now rewrite Nat.eqb_refl.
  - destruct (Nat.eqb_spec (tid d) (tid t)) as [E|E]; [tauto|].
    rewrite IH; [reflexivity|tauto].
Qed.

Lemma nodup_middle_fresh (l1 l2 : list nat) x y :
  NoDup (l1 ++ x :: l2) -> ~ In y (l1 ++ l2) -> NoDup (l1 ++ y :: l2).
Proof.
  intros H Hy. apply NoDup_remove_1 in H.
  apply (Permutation_NoDup (l := y :: l1 ++ l2)).
  - apply Permutation_middle.
  - now constructor.
Qed.

Lemma app_cons_assoc {A} (l1 : list A) x l2 : (l1 ++ [x]) ++ l2 = l1 ++ x :: l2.
Proof. now rewrite <- app_assoc. Qed.

(* One pass from position [length done] on: [done] has been visited,
   [rest] is still to visit. *)
Lemma poll_from env g names audio :
  get_filename_bound env g ->
  forall rest done w,
    NoDup (map tid (done ++ rest)) ->
    Forall (fun t => tid t < List.length (started w)) (done ++ rest) ->
    (forall j, j < List.length rest ->
       exists name, nth_error names (List.length done + j) = Some name /\
                    has_address name) ->
    exists rest' new w',
      poll env g (List.length rest) (List.length done) names audio
        (done ++ rest) w = (Ok (done ++ rest'), w') /\
      List.length rest' = List.length rest /\
      probes w' = probes w /\
      polls w' = polls w + List.length rest /\
      started w' = new ++ started w /\
      List.length new = dead_count env (polls w) rest /\
      (forall t, In t new -> In t rest') /\
      NoDup (map tid (done ++ rest')) /\
      Forall (fun t => tid t < List.length (started w')) (done ++ rest') /\
      (forall j t, nth_error rest j = Some t ->
         if alive env (polls w + j) (tid t)
         then nth_error rest' j = Some t
         else exists t',
                nth_error rest' j = Some t' /\
                nth_error names (List.length done + j) = Some (t_input t') /\
                List.length (started w) <= tid t' /\
                In t' new).
Proof.
  intros Hg. induction rest as [|t rest IH]; intros done w Hnd Hlt Hnames.
  - exists [], [], w. cbn [List.length poll]. unfold ret.
    repeat split; try assumption; try reflexivity; try lia.
    + intros t [].
    + intros j t H. destruct j; discriminate.
  - cbn [List.length poll]. rewrite nth_error_middle.
    unfold bind at 1, is_alive.
    destruct (alive env (polls w) (tid t)) eqn:Ealive.
    + (* alive: move on *)
      destruct (IH (done ++ [t])
                  (mkWorld (probes w) (reads w) (started w) (S (polls w))))
        as (rest' & new & w' & Hrun & Hlen & Hpr & Hpo & Hst & Hcount & Hin &
            Hnd' & Hlt' & Hidx).
      * now rewrite app_cons_assoc.
      * now rewrite app_cons_assoc.
      * intros j Hj. rewrite length_app. cbn [List.length].
        replace (List.length done + 1 + j) with (List.length done + S j) by lia.
        apply Hnames. cbn [List.length]. lia.
      * rewrite length_app, !app_cons_assoc in Hrun. cbn [List.length] in Hrun.
        rewrite Nat.add_1_r in Hrun.
        rewrite app_cons_assoc in Hnd', Hlt'.
        cbn [probes reads started polls] in *.
        exists (t :: rest'), new, w'.
        split; [exact Hrun|]. split; [cbn; lia|]. split; [exact Hpr|].
        split; [lia|]. split; [exact Hst|].
        split; [cbn [dead_count]; rewrite Ealive; exact Hcount|].
        split; [intros x Hx; right; now apply Hin|].
        split; [exact Hnd'|]. split; [exact Hlt'|].
        intros j x Hx. destruct j as [|j].
        -- injection Hx as <-. rewrite Nat.add_0_r, Ealive. reflexivity.
        -- cbn [nth_error] in Hx. specialize (Hidx j x Hx).
           rewrite length_app in Hidx. cbn [List.length] in Hidx.
           replace (polls w + S j) with (S (polls w) + j) by lia.
           replace (List.length done + S j) with (List.length done + 1 + j) by lia.
           destruct (alive env (S (polls w) + j) (tid x)); [exact Hidx|].
           destruct Hidx as (t' & H1 & H2 & H3 & H4). exists t'. now repeat split.
    + (* dead: restart the input of this position *)
      assert (Hfresh : ~ In (tid t) (map tid done)).
      { rewrite map_app in Hnd. cbn [map] in Hnd. apply NoDup_remove_2 in Hnd.
        intros H. apply Hnd. apply in_or_app. now left. }
      rewrite (list_index_middle _ _ _ Hfresh).
      destruct (Hnames 0) as (name & Hname & Haddr); [cbn; lia|].
      rewrite Nat.add_0_r in Hname. rewrite Hname.
      unfold has_address in Haddr.
      destruct (re_search ip_pattern name) as [ip|] eqn:Hip; [|congruence].
      rewrite (bind_ok _ _ _ _ _ (create_thread_bound env g name audio _ ip Hg Hip)).
      rewrite list_set_middle. cbn [probes reads started polls].
      set (t' := mkThread (List.length (started w)) name audio
                   (ip ++ "_" ++ strftime (now env (reads w)) ++ ".mp4")%string
                   (record_video name audio
                      (ip ++ "_" ++ strftime (now env (reads w)) ++ ".mp4")%string)
                   (S (reads w))).
      destruct (IH (done ++ [t'])
                  (mkWorld (probes w) (S (reads w)) (t' :: started w) (S (polls w))))
        as (rest' & new & w' & Hrun & Hlen & Hpr & Hpo & Hst & Hcount & Hin &
            Hnd' & Hlt' & Hidx).
      * rewrite app_cons_assoc, map_app. cbn [map].
        rewrite map_app in Hnd. cbn [map] in Hnd.
        apply (nodup_middle_fresh _ _ _ _ Hnd).
        intros H. rewrite <- map_app in H. apply in_map_iff in H.
        destruct H as (x & Hx & Hin).
        rewrite Forall_forall in Hlt.
        assert (Hlx : tid x < List.length (started w)).
        { apply Hlt. apply in_app_or in Hin. apply in_or_app.
          destruct Hin; [now left|right; now right]. }
        cbn [tid t'] in Hx. unfold t' in Hx. cbn [tid] in Hx. lia.
      * rewrite app_cons_assoc. cbn [started List.length].
        rewrite Forall_forall in Hlt |- *. intros x Hx.
        apply in_app_or in Hx. destruct Hx as [Hx|[<-|Hx]].
        -- specialize (Hlt x (in_or_app done (t :: rest) x (or_introl Hx))). lia.
        -- unfold t'. cbn [tid]. lia.
        -- specialize (Hlt x (in_or_app done (t :: rest) x
                                (or_intror (or_intror Hx)))). lia.
      * intros j Hj. rewrite length_app. cbn [List.length].
        replace (List.length done + 1 + j) with (List.length done + S j) by lia.
        apply Hnames. cbn [List.length]. lia.
      * rewrite length_app, !app_cons_assoc in Hrun. cbn [List.length] in Hrun.
        rewrite Nat.add_1_r in Hrun.
        rewrite app_cons_assoc in Hnd', Hlt'.
        cbn [probes reads started polls] in *.
        exists (t' :: rest'), (new ++ [t']), w'.
        split; [exact Hrun|]. split; [cbn; lia|]. split; [exact Hpr|].
        split; [lia|]. split; [now rewrite Hst, <- app_assoc|].
        split; [rewrite length_app; cbn [dead_count List.length];
                rewrite Ealive; lia|].
        split; [intros x Hx; apply in_app_or in Hx;
                destruct Hx as [Hx|[<-|[]]]; [right; now apply Hin|now left]|].
        split; [exact Hnd'|]. split; [exact Hlt'|].
        intros j x Hx. destruct j as [|j].
        -- injection Hx as <-. rewrite Nat.add_0_r, Ealive.
           exists t'. rewrite Nat.add_0_r. repeat split.
           ++ exact Hname.
           ++ unfold t'. cbn [tid]. lia.
           ++ apply in_or_app. right. now left.
        -- cbn [nth_error] in Hx. specialize (Hidx j x Hx).
           rewrite length_app in Hidx. cbn [List.length] in Hidx.
           replace (polls w + S j) with (S (polls w) + j) by lia.
           replace (List.length done + S j) with (List.length done + 1 + j) by lia.
           destruct (alive env (S (polls w) + j) (tid x)); [exact Hidx|].
           destruct Hidx as (x' & H1 & H2 & H3 & H4). exists x'.
           repeat split; [exact H1|exact H2|lia|apply in_or_app; now left].
Qed.

Lemma names_at names (threads : list Thread) :
  List.length names = List.length threads ->
  Forall has_address names ->
  forall j, j < List.length threads ->
    exists name, nth_error names (0 + j) = Some name /\ has_address name.
Proof.
  intros Hlen Ha j Hj. cbn [Nat.add].
  destruct (nth_error names j) as [name|] eqn:E.
  - exists name. split; [reflexivity|].
    rewrite Forall_forall in Ha. apply Ha. now apply nth_error_In in E.
  - apply nth_error_None in E. lia.
Qed.

Lemma poll_pass_full env g names audio threads w :
  get_filename_bound env g ->
  registry_ok threads w ->
  List.length names = List.length threads ->
  Forall has_address names ->
  exists threads' new w',
    poll env g (List.length threads) 0 names audio threads w = (Ok threads', w') /\
    List.length threads' = List.length threads /\
    probes w' = probes w /\
    polls w' = polls w + List.length threads /\
    started w' = new ++ started w /\
    List.length new = dead_count env (polls w) threads /\
    (forall t, In t new -> In t threads') /\
    registry_ok threads' w' /\
    (forall k t, nth_error threads k = Some t ->
       if alive env (polls w + k) (tid t)
       then nth_error threads' k = Some t
       else exists t',
              nth_error threads' k = Some t' /\
              nth_error names k = Some (t_input t') /\
              In t' new).
Proof.
  intros Hg [Hnd Hlt] Hlen Ha.
  destruct (poll_from env g names audio Hg threads [] w Hnd Hlt
              (names_at names threads Hlen Ha))
    as (rest' & new & w' & Hrun & Hl & Hpr & Hpo & Hst & Hc & Hin & Hnd' & Hlt' & Hidx).
  cbn [app List.length] in *.
  exists rest', new, w'. repeat split; try assumption.
  intros k t Hk. specialize (Hidx k t Hk). cbn [Nat.add] in Hidx.
  destruct (alive env (polls w + k) (tid t)); [exact Hidx|].
  destruct Hidx as (t' & H1 & H2 & _ & H4). now exists t'.
Qed.

(** X18: one pass of the supervisor loop, in a name space where
    [get_filename] is bound to [make_filename].  On a list of distinct,
    started threads, with as many input names as threads and an address in
    every name, the pass returns a list of the same length in which every
    thread found alive is kept and every thread found dead is replaced, at
    its own index [k], by a new thread recording [input_stream_names[k]].
    It makes one liveness query per thread, starts exactly one thread per
    thread found dead, every thread it starts is in the returned list, and
    the returned list again holds distinct, started threads. *)
Theorem poll_pass (env : Env) (g : globals) (input_stream_names : list string)
    (audio_stream_name : option string) (threads : list Thread) (w : world) :
  get_filename_bound env g ->
  registry_ok threads w ->
  List.length input_stream_names = List.length threads ->
  Forall has_address input_stream_names ->
  exists threads' new w',
    poll env g (List.length threads) 0 input_stream_names audio_stream_name
      threads w = (Ok threads', w') /\
    List.length threads' = List.length threads /\
    polls w' = polls w + List.length threads /\
    started w' = new ++ started w /\
    List.length new = dead_count env (polls w) threads /\
    (forall t, In t new -> In t threads') /\
    registry_ok threads' w' /\
    (forall k t, nth_error threads k = Some t ->
       if alive env (polls w + k) (tid t)
       then nth_error threads' k = Some t
       else exists t',
              nth_error threads' k = Some t' /\
              nth_error input_stream_names k = Some (t_input t') /\
              In t' new).
Proof.
  intros Hg Hr Hlen Ha.
  destruct (poll_pass_full env g input_stream_names audio_stream_name threads w
              Hg Hr Hlen Ha)
    as (threads' & new & w' & H1 & H2 & _ & H3 & H4 & H5 & H6 & H7 & H8).
  exists threads', new, w'.
  repeat (split; [assumption|]). exact H8.
Qed.

Lemma supervise_full env g names audio :
  get_filename_bound env g ->
  Forall has_address names ->
  forall passes threads w,
    registry_ok threads w ->
    List.length names = List.length threads ->
    exists threads' w',
      supervise env g passes names audio threads w = (Ok threads', w') /\
      List.length threads' = List.length threads /\
      registry_ok threads' w' /\
      probes w' = probes w /\
      polls w' = polls w + passes * List.length threads /\
      (forall k t t',
         nth_error threads k = Some t -> nth_error threads' k = Some t' ->
         t' = t \/ nth_error names k = Some (t_input t')).
Proof.
  intros Hg Ha. induction passes as [|passes IH]; intros threads w Hr Hlen.
  - exists threads, w. cbn [supervise]. unfold ret.
    repeat (split; [assumption || reflexivity || lia|]).
    intros k t t' H1 H2. left. congruence.
  - destruct (poll_pass_full env g names audio threads w Hg Hr Hlen Ha)
      as (ts & new & w1 & Hrun & Hl & Hpr & Hpo & _ & _ & _ & Hr1 & Hidx).
    destruct (IH ts w1 Hr1 ltac:(congruence))
      as (threads' & w' & Hrun' & Hl' & Hr' & Hpr' & Hpo' & Hidx').
    exists threads', w'. cbn [supervise]. rewrite (bind_ok _ _ _ _ _ Hrun).
    split; [exact Hrun'|]. split; [congruence|]. split; [exact Hr'|].
    split; [congruence|]. split; [rewrite Hpo', Hpo, Hl; cbn [Nat.mul]; lia|].
    intros k t t' Ht Ht'.
    specialize (Hidx k t Ht).
    destruct (nth_error ts k) as [t1|] eqn:E1.
    + destruct (Hidx' k t1 t' E1 Ht') as [-> | Hn]; [|now right].
      destruct (alive env (polls w + k) (tid t)).
      * left. congruence.
      * destruct Hidx as (x & Hx & Hn & _). right. congruence.
    + apply nth_error_None in E1.
      assert (k < List.length threads) by (apply nth_error_Some; congruence).
      lia.
Qed.

(** X19: the supervisor loop over any number of passes, in a name space
    where [get_filename] is bound to [make_filename].  Under the
    conditions of X18 the loop never fails: after any number of passes the
    list has its first length and holds distinct, started threads, and the
    thread at index [k] is either the one that was there at the start or a
    recording of [input_stream_names[k]] -- the input name at that index,
    whatever source the first thread at that index recorded. *)
Theorem supervise_registry (env : Env) (g : globals) (passes : nat)
    (input_stream_names : list string) (audio_stream_name : option string)
    (threads : list Thread) (w : world) :
  get_filename_bound env g ->
  Forall has_address input_stream_names ->
  registry_ok threads w ->
  List.length input_stream_names = List.length threads ->
  exists threads' w',
    supervise env g passes input_stream_names audio_stream_name threads w =
    (Ok threads', w') /\
    List.length threads' = List.length threads /\
    registry_ok threads' w' /\
    polls w' = polls w + passes * List.length threads /\
    (forall k t t',
       nth_error threads k = Some t -> nth_error threads' k = Some t' ->
       t' = t \/ nth_error input_stream_names k = Some (t_input t')).
Proof.
  intros Hg Ha Hr Hlen.
  destruct (supervise_full env g input_stream_names audio_stream_name Hg Ha
              passes threads w Hr Hlen)
    as (threads' & w' & H1 & H2 & H3 & _ & H4 & H5).
  exists threads', w'.
  repeat (split; [assumption|]). exact H5.
Qed.

Lemma create_thread_no_address env g name audio w :
  get_filename_bound env g ->
  re_search ip_pattern name = None ->
  create_thread g name audio w = (Raise AttributeError, w).
Proof.
  intros Hg Hip. unfold create_thread, call_global. rewrite Hg.
  erewrite bind_raise; [reflexivity|].
  unfold make_filename. now rewrite Hip.
Qed.

Lemma release_bound_tids env g fuel begin queue audio :
  get_filename_bound env g ->
  forall threads w threads' w',
    release env g fuel begin queue audio threads w = (Ok threads', w') ->
    exists new,
      threads' = threads ++ new /\
      map tid new = seq (List.length (started w)) (List.length queue) /\
      List.length (started w') = List.length (started w) + List.length queue /\
      probes w' = probes w /\ polls w' = polls w.
Proof.
  intros Hg. induction queue as [|[n d] queue IH]; intros threads w threads' w'.
  - cbn [release]. intros [= <- <-]. exists []. rewrite app_nil_r.
    cbn. repeat split. lia.
  - cbn [release]. unfold bind at 1.
    destruct (busy_wait env fuel begin d w) as [[[]| |] w1] eqn:Hb;
      try discriminate.
    destruct (busy_wait_deadline _ _ _ _ _ _ Hb) as (_ & _ & Hp1 & Hs1 & Hq1).
    destruct (re_search ip_pattern n) as [ip|] eqn:Hip.
    + rewrite (bind_ok _ _ _ _ _ (create_thread_bound env g n audio w1 ip Hg Hip)).
      intros H. apply IH in H. destruct H as (new & -> & Hm & Hl & Hp & Hq).
      cbn [started probes polls List.length] in Hm, Hl, Hp, Hq.
      rewrite Hs1 in Hm, Hl.
      eexists (_ :: new). split; [now rewrite <- app_assoc|]. split; [|split].
      * cbn [map tid List.length seq]. now rewrite Hm, Hs1.
      * cbn [List.length]. lia.
      * split; congruence.
    + rewrite (bind_raise _ _ _ _ _ (create_thread_no_address env g n audio w1 Hg Hip)).
      discriminate.
Qed.

Lemma start_queue_registry_ok env g fuel queue audio w threads w' :
  get_filename_bound env g ->
  start_queue env g fuel queue audio w = (Ok threads, w') ->
  List.length threads = List.length queue /\
  map tid threads = seq (List.length (started w)) (List.length queue) /\
  registry_ok threads w'.
Proof.
  intros Hg. unfold start_queue, bind at 1, time. intros H.
  apply (release_bound_tids env g fuel _ queue audio Hg) in H.
  destruct H as (new & -> & Hm & Hl & _). cbn [app started] in *.
  split; [rewrite <- (length_map tid), Hm; apply length_seq|].
  split; [exact Hm|]. split.
  - rewrite Hm. apply seq_NoDup.
  - rewrite Forall_forall. intros t Ht.
    apply (in_map tid) in Ht. rewrite Hm in Ht. apply in_seq in Ht. lia.
Qed.

(** X20: what [start_queue] hands to the supervisor loop, in a name space
    where [get_filename] is bound to [make_filename].  A returned list has
    one thread per queue entry; the threads are numbered in the order of
    their start, so they are distinct, and all of them are in the log of
    started threads: the list meets the conditions X18 and X19 ask of
    it. *)
Theorem start_queue_registry (env : Env) (g : globals) (fuel : nat)
    (queue : list entry) (audio_stream_name : option string)
    (w w' : world) (threads : list Thread) :
  get_filename_bound env g ->
  start_queue env g fuel queue audio_stream_name w = (Ok threads, w') ->
  List.length threads = List.length queue /\
  map tid threads = seq (List.length (started w)) (List.length queue) /\
  registry_ok threads w'.
Proof.
  intros Hg Hrun.
  destruct (start_queue_registry_ok env g fuel queue audio_stream_name w threads w'
              Hg Hrun) as (Hlen & Htid & Hreg).
  split; [exact Hlen|]. split; [exact Htid|exact Hreg].
Qed.

Lemma example_bound : get_filename_bound example_env (repaired_globals example_env).
Proof. reflexivity. Qed.

Lemma example_release :
  start_queue example_env (repaired_globals example_env) 8
    [(camB, 0%Q); (camA, 2%Q)] None fresh_world =
  (Ok example_threads, example_released).
Proof. vm_compute. reflexivity. Qed.

Lemma example_registry_ok : registry_ok example_threads example_released.
Proof.
  exact (proj2 (proj2 (start_queue_registry_ok _ _ _ _ _ _ _ _
                         example_bound example_release))).
Qed.

Lemma example_addresses : Forall has_address [camA; camB].
Proof. repeat constructor; unfold has_address; vm_compute; discriminate. Qed.

Lemma start_queue_registry_witness :
  get_filename_bound example_env (repaired_globals example_env) /\
  start_queue example_env (repaired_globals example_env) 8
    [(camB, 0%Q); (camA, 2%Q)] None fresh_world =
    (Ok example_threads, example_released) /\
  List.length example_threads = List.length [(camB, 0%Q); (camA, 2%Q)] /\
  map tid example_threads =
    seq (List.length (started fresh_world))
        (List.length [(camB, 0%Q); (camA, 2%Q)]) /\
  registry_ok example_threads example_released.
Proof.
  split; [exact example_bound|]. split; [exact example_release|].
  exact (start_queue_registry example_env (repaired_globals example_env) 8
           [(camB, 0%Q); (camA, 2%Q)] None fresh_world example_released
           example_threads example_bound example_release).
Defined.

Lemma poll_pass_witness :
  get_filename_bound example_env (repaired_globals example_env) /\
  registry_ok example_threads example_released /\
  List.length [camA; camB] = List.length example_threads /\
  Forall has_address [camA; camB] /\
  exists threads' new w',
    poll example_env (repaired_globals example_env) (List.length example_threads) 0
      [camA; camB] None example_threads example_released = (Ok threads', w') /\
    List.length threads' = List.length example_threads /\
    polls w' = polls example_released + List.length example_threads /\
    started w' = new ++ started example_released /\
    List.length new = dead_count example_env (polls example_released) example_threads /\
    (forall t, In t new -> In t threads') /\
    registry_ok threads' w' /\
    (forall k t, nth_error example_threads k = Some t ->
       if alive example_env (polls example_released + k) (tid t)
       then nth_error threads' k = Some t
       else exists t',
              nth_error threads' k = Some t' /\
              nth_error [camA; camB] k = Some (t_input t') /\
              In t' new).
Proof.
  split; [exact example_bound|]. split; [exact example_registry_ok|].
  split; [reflexivity|]. split; [exact example_addresses|].
  exact (poll_pass example_env (repaired_globals example_env) [camA; camB] None
           example_threads example_released example_bound example_registry_ok
           eq_refl example_addresses).
Defined.

Lemma supervise_registry_witness :
  get_filename_bound example_env (repaired_globals example_env) /\
  Forall has_address [camA; camB] /\
  registry_ok example_threads example_released /\
  List.length [camA; camB] = List.length example_threads /\
  exists threads' w',
    supervise example_env (repaired_globals example_env) 3 [camA; camB] None
      example_threads example_released = (Ok threads', w') /\
    List.length threads' = List.length example_threads /\
    registry_ok threads' w' /\
    polls w' = polls example_released + 3 * List.length example_threads /\
    (forall k t t',
       nth_error example_threads k = Some t -> nth_error threads' k = Some t' ->
       t' = t \/ nth_error [camA; camB] k = Some (t_input t')).
Proof.
  split; [exact example_bound|]. split; [exact example_addresses|].
  split; [exact example_registry_ok|]. split; [reflexivity|].
  exact (supervise_registry example_env (repaired_globals example_env) 3
           [camA; camB] None example_threads example_released example_bound
           example_addresses example_registry_ok eq_refl).
Defined.

Lemma supervise_keeps_length_witness :
  supervise example_env (repaired_globals example_env) 2 [camA; camB] None
    example_threads example_released =
  (Ok (match fst (supervise example_env (repaired_globals example_env) 2
                    [camA; camB] None example_threads example_released) with
       | Ok threads => threads
       | _ => []
       end),
   snd (supervise example_env (repaired_globals example_env) 2 [camA; camB] None
          example_threads example_released)) /\
  List.length
    (match fst (supervise example_env (repaired_globals example_env) 2
                  [camA; camB] None example_threads example_released) with
     | Ok threads => threads
     | _ => []
     end) = List.length example_threads.
Proof.
  assert (H : supervise example_env (repaired_globals example_env) 2 [camA; camB]
                None example_threads example_released =
              (Ok (match fst (supervise example_env (repaired_globals example_env) 2
                                [camA; camB] None example_threads example_released)
                   with
                   | Ok threads => threads
                   | _ => []
                   end),
               snd (supervise example_env (repaired_globals example_env) 2
                      [camA; camB] None example_threads example_released)))
    by (vm_compute; reflexivity).
  split; [exact H|].
  exact (supervise_keeps_length example_env (repaired_globals example_env) 2
           [camA; camB] None example_threads _ example_released _ H).
Defined.

(* The pass of the example: thread 0, which records camB, is found dead
   and its place is taken by a recording of camA. *)
Example poll_pass_example :
  map t_input example_threads = [camB; camA] /\
  exists threads' w',
    poll example_env (repaired_globals example_env) 2 0 [camA; camB] None
      example_threads example_released = (Ok threads', w') /\
    map t_input threads' = [camA; camA] /\
    map tid threads' = [2; 1].
Proof.
  split; [reflexivity|]. do 2 eexists.
  split; [vm_compute; reflexivity|]. split; reflexivity.
Qed.

(** ** More on the queue and its release *)











